(** * Signing and verifying bindle invoices

    A shallow embedding of [types/signature.go] of go-bindle: the canonical
    cleartext of an invoice, [GenerateSignature] and [VerifySignatures],
    together with the parts of the Go standard library they call
    ([strings.Join], [encoding/base64] with the standard alphabet and the
    length checks of [crypto/ed25519]).

    Go values are represented as follows.
    - a [string] is a Rocq [string]: a sequence of 8-bit characters;
    - a [[]byte] is a [list ascii], and [[]byte(s)] is [list_ascii_of_string];
    - a slice that the code compares with [nil] is an [option (list _)];
    - a [map[string]T] is a [gmap string T];
    - a method with a pointer receiver [*Invoice] is a computation in a
      state monad over the invoice, with three ways to end: a normal
      return, a returned [error], or a panic. *)

From Stdlib Require Import NArith ZArith List Ascii String Lia.
From stdpp Require Import gmap strings list fin_maps.

Abbreviation bytes := (list ascii).

(** ** Results of Go calls *)

(** The error values declared at the top of [signature.go], and the
    [base64.CorruptInputError] that [DecodeString] returns (its offset is
    not modelled). *)
Inductive error : Type :=
| ErrInvalidRole
| ErrAuthorNotExist
| ErrSignatureKeyRoleMismatch
| ErrInvalidSignatureKey
| ErrInvalidSignature
| ErrMissingSignatureKey
| CorruptInputError.

(** How a call ends: [Ok a] is a normal return ([return nil] for a function
    whose only result is an [error]), [Err e] is [return e], and [Panic]
    is a run-time panic that unwinds the call. *)
Inductive result (A : Type) : Type :=
| Ok (a : A)
| Err (e : error)
| Panic (msg : string).

Arguments Ok {A} a.
Arguments Err {A} e.
Arguments Panic {A} msg.

(** ** [strings.Join] *)

Module GoStrings.

(** [Join] returns the empty string for no element, and otherwise writes the
    first element followed by [sep] and the next element, for every other
    element in turn. *)
Definition Join (elems : list string) (sep : string) : string :=
  match elems with
  | [] => EmptyString
  | e :: rest => fold_left (fun b s => String.append (String.append b sep) s) rest e
  end.

End GoStrings.

(** ** [encoding/base64], [StdEncoding] *)

Module base64.

Definition encodeStd : string :=
  "ABCDEFGHIJKLMNOPQRSTUVWXYZabcdefghijklmnopqrstuvwxyz0123456789+/".

Definition StdPadding : ascii := "="%char.

(** [enc.encode[v & 0x3F]] *)
Definition encodeChar (v : N) : ascii :=
  nth (N.to_nat (v mod 64)) (list_ascii_of_string encodeStd) "A"%char.

Fixpoint indexByte (c : ascii) (l : list ascii) (i : N) : option N :=
  match l with
  | [] => None
  | x :: l' => if Ascii.eqb x c then Some i else indexByte c l' (N.succ i)
  end.

(** [enc.decodeMap[c]]; [None] stands for the entry [0xFF] of a byte
    outside the alphabet. *)
Definition decodeMap (c : ascii) : option N :=
  indexByte c (list_ascii_of_string encodeStd) 0.

(** Three source bytes give four characters; a final group of one or two
    bytes is padded with [=]. Shifts are written as divisions by powers of
    two: [val >> 18] is [val / 262144], [val >> 12] is [val / 4096], and
    [val >> 6] is [val / 64]. *)
Fixpoint encode (src : bytes) : list ascii :=
  match src with
  | [] => []
  | [a] =>
      let val := (N_of_ascii a * 65536)%N in
      [encodeChar (val / 262144); encodeChar (val / 4096); StdPadding; StdPadding]
  | [a; b] =>
      let val := (N_of_ascii a * 65536 + N_of_ascii b * 256)%N in
      [encodeChar (val / 262144); encodeChar (val / 4096);
       encodeChar (val / 64); StdPadding]
  | a :: b :: c :: rest =>
      let val := (N_of_ascii a * 65536 + N_of_ascii b * 256 + N_of_ascii c)%N in
      encodeChar (val / 262144) :: encodeChar (val / 4096) ::
      encodeChar (val / 64) :: encodeChar val :: encode rest
  end.

Definition EncodeToString (src : bytes) : string :=
  string_of_list_ascii (encode src).

(** The decoder skips carriage returns and line feeds wherever they occur. *)
Definition isNewline (c : ascii) : bool :=
  Ascii.eqb c "010"%char || Ascii.eqb c "013"%char.

(** The input without its newlines is read four characters at a time. A
    group of four alphabet characters gives three bytes. Padding may only
    end the input: two characters and [==] give one byte, three characters
    and [=] give two. Anything else is corrupt input. The encoding is not
    strict: the unused low bits of a padded group are not checked. *)
Fixpoint decodeQuanta (src : list ascii) : option bytes :=
  match src with
  | [] => Some []
  | c0 :: c1 :: c2 :: c3 :: rest =>
      match decodeMap c0, decodeMap c1 with
      | Some v0, Some v1 =>
          match decodeMap c2, decodeMap c3 with
          | Some v2, Some v3 =>
              let val := (v0 * 262144 + v1 * 4096 + v2 * 64 + v3)%N in
              match decodeQuanta rest with
              | Some out =>
                  Some (ascii_of_N (val / 65536) :: ascii_of_N (val / 256 mod 256)
                        :: ascii_of_N (val mod 256) :: out)
              | None => None
              end
          | Some v2, None =>
              let val := (v0 * 262144 + v1 * 4096 + v2 * 64)%N in
              if Ascii.eqb c3 StdPadding && bool_decide (rest = [])
              then Some [ascii_of_N (val / 65536); ascii_of_N (val / 256 mod 256)]
              else None
          | None, _ =>
              let val := (v0 * 262144 + v1 * 4096)%N in
              if Ascii.eqb c2 StdPadding && Ascii.eqb c3 StdPadding
                 && bool_decide (rest = [])
              then Some [ascii_of_N (val / 65536)]
              else None
          end
      | _, _ => None
      end
  | _ => None
  end.

Definition DecodeString (s : string) : result bytes :=
  match decodeQuanta
          (List.filter (fun c => negb (isNewline c)) (list_ascii_of_string s)) with
  | Some out => Ok out
  | None => Err CorruptInputError
  end.

End base64.

(** ** [crypto/ed25519] *)

(** The signature scheme itself is a parameter of the development: [sign]
    is the signing function on a 64-byte private key and [verify] the
    verification function on a 32-byte public key. *)
Class Ed25519 : Type := {
  sign : bytes -> bytes -> bytes;
  verify : bytes -> bytes -> bytes -> bool
}.

Module ed25519.

Definition PublicKeySize : nat := 32.
Definition PrivateKeySize : nat := 64.

(** [Sign] panics if the private key does not have [PrivateKeySize] bytes. *)
Definition Sign `{Ed25519} (privateKey message : bytes) : result bytes :=
  if Nat.eqb (length privateKey) PrivateKeySize
  then Ok (sign privateKey message)
  else Panic "ed25519: bad private key length".

(** [Verify] panics if the public key does not have [PublicKeySize] bytes. *)
Definition Verify `{Ed25519} (publicKey message sig : bytes) : result bool :=
  if Nat.eqb (length publicKey) PublicKeySize
  then Ok (verify publicKey message sig)
  else Panic "ed25519: bad public key length".

End ed25519.

(** ** The data model *)

(** Modelled from the spec: the struct types are declared in other files of
    the package. They are given the fields that the data model of the spec
    lists and that [signature.go] reads or writes; a field is prefixed with
    the name of its struct where two structs share a field name. *)
Record Label : Type := { SHA256 : string }.

Record Parcel : Type := { parcel_Label : Label }.

Record BindleSpec : Type := {
  Name : string;
  Version : string;
  Authors : list string
}.

Record Signature : Type := {
  sig_By : string;
  sig_Signature : string;
  sig_Key : string;
  sig_Role : string;
  sig_At : Z
}.

Record SignatureKey : Type := {
  key_Label : string;
  key_Roles : list string;
  key_Key : string;
  key_LabelSignature : string
}.

(** [inv_Signature] is [None] for the [nil] slice. *)
Record Invoice : Type := {
  inv_Bindle : BindleSpec;
  inv_Parcel : list Parcel;
  inv_Signature : option (list Signature)
}.

(** The elements a [range] loop visits: none for [nil]. *)
Definition elems {A : Type} (s : option (list A)) : list A :=
  match s with
  | Some l => l
  | None => []
  end.

(** Modelled from the spec: the method [IncludesRole] of [SignatureKey] is
    declared in another file of the package; the spec describes it as the
    capability check [role ∈ sigKey.Roles]. *)
Fixpoint includes (roles : list string) (role : string) : bool :=
  match roles with
  | [] => false
  | r :: rest => if String.eqb r role then true else includes rest role
  end.

Definition IncludesRole (k : SignatureKey) (role : string) : bool :=
  includes (key_Roles k) role.

(** ** Roles *)

Definition RoleCreator : string := "creator".
Definition RoleApprover : string := "approver".
Definition RoleProxy : string := "proxy".
Definition RoleHost : string := "host".

Definition ValidRoles : gmap string bool :=
  <[RoleHost := true]> (<[RoleProxy := true]> (<[RoleApprover := true]>
    (<[RoleCreator := true]> ∅))).

(** The two-result map index [v, ok := m[k]]: the zero value and [false]
    for a missing key. *)
Definition mapIndex (m : gmap string bool) (k : string) : bool * bool :=
  match m !! k with
  | Some v => (v, true)
  | None => (false, false)
  end.

(** ** The monad of methods on [*Invoice] *)

Definition M (A : Type) : Type := Invoice -> result A * Invoice.

Definition ret {A : Type} (a : A) : M A := fun i => (Ok a, i).

Definition fail {A : Type} (e : error) : M A := fun i => (Err e, i).

Definition bind {A B : Type} (m : M A) (f : A -> M B) : M B :=
  fun i =>
    match m i with
    | (Ok a, i') => f a i'
    | (Err e, i') => (Err e, i')
    | (Panic msg, i') => (Panic msg, i')
    end.

(** The result of a library call, which does not touch the invoice. *)
Definition call {A : Type} (r : result A) : M A := fun i => (r, i).

(** Reading the receiver, and the one assignment [i.Signature = ...]. *)
Definition self : M Invoice := fun i => (Ok i, i).

Definition assignSignature (s : option (list Signature)) : M unit :=
  fun i => (Ok tt, {| inv_Bindle := inv_Bindle i;
                      inv_Parcel := inv_Parcel i;
                      inv_Signature := s |}).

Declare Scope go_scope.
Delimit Scope go_scope with go.
Notation "x <- m ;; k" := (bind m (fun x => k))
  (at level 100, m at next level, right associativity) : go_scope.
Notation "m ;;; k" := (bind m (fun _ => k))
  (at level 100, right associativity) : go_scope.
Open Scope go_scope.

(** A [for ... range] loop whose body may return from the function: the
    loop stops at the first iteration that returns an error or panics. *)
Fixpoint forRange {A : Type} (l : list A) (body : A -> M unit) : M unit :=
  match l with
  | [] => ret tt
  | x :: rest => body x ;;; forRange rest body
  end.

(** The same loop, threading a local variable through the iterations. *)
Fixpoint forRangeWith {A S : Type} (l : list A) (body : S -> A -> M S) (s : S) : M S :=
  match l with
  | [] => ret s
  | x :: rest => s' <- body s x ;; forRangeWith rest body s'
  end.

(** ** [signature.go] *)

(** The separator of the canonical text: one line feed. *)
Definition newline : string := String "010"%char EmptyString.

(** [generateCleartext]: the metadata, the separator, and the digest of
    every parcel appended in list order, joined with newlines. *)
Definition generateCleartext (i : Invoice) (author role : string) : string :=
  let cleartextParts :=
    [author; Name (inv_Bindle i); Version (inv_Bindle i); role; "~"%string] in
  let cleartextParts :=
    fold_left (fun parts p => parts ++ [SHA256 (parcel_Label p)])
              (inv_Parcel i) cleartextParts in
  GoStrings.Join cleartextParts newline.

(** [IsAuthoredBy]: the loop returns [true] at the first author equal to
    [author]. *)
Fixpoint authoredBy (authors : list string) (author : string) : bool :=
  match authors with
  | [] => false
  | a :: rest => if String.eqb a author then true else authoredBy rest author
  end.

Definition IsAuthoredBy (i : Invoice) (author : string) : bool :=
  authoredBy (Authors (inv_Bindle i)) author.

Section Signing.

Context `{E : Ed25519}.

(** [GenerateSignature]; [now] is the reading of the clock,
    [time.Now().Unix()], and [sigKey] is the key that the pointer argument
    points to. *)
Definition GenerateSignature (now : Z) (author role : string)
    (sigKey : SignatureKey) (privKey : bytes) : M unit :=
  let '(exists_, val) := mapIndex ValidRoles role in
  if negb exists_ || negb val then fail ErrInvalidRole else
  if negb (IncludesRole sigKey role) then fail ErrSignatureKeyRoleMismatch else
  i <- self ;;
  if negb (IsAuthoredBy i author) then fail ErrAuthorNotExist else
  let timestamp := now in
  let cleartext := generateCleartext i author role in
  sig <- call (ed25519.Sign privKey (list_ascii_of_string cleartext)) ;;
  pubKey <- call (base64.DecodeString (key_Key sigKey)) ;;
  let signature :=
    {| sig_By := author;
       sig_Signature := base64.EncodeToString sig;
       sig_Key := base64.EncodeToString pubKey;
       sig_Role := role;
       sig_At := timestamp |} in
  i <- self ;;
  (match inv_Signature i with
   | None => assignSignature (Some [])
   | Some _ => ret tt
   end) ;;;
  i <- self ;;
  assignSignature (Some (elems (inv_Signature i) ++ [signature])).

(** The first loop of [VerifySignatures]: every key is checked against its
    own label signature and then stored in the map under its label. *)
Definition indexKey (keys : gmap string SignatureKey) (key : SignatureKey)
    : M (gmap string SignatureKey) :=
  keyBytes <- call (base64.DecodeString (key_Key key)) ;;
  labelSigBytes <- call (base64.DecodeString (key_LabelSignature key)) ;;
  valid <- call (ed25519.Verify keyBytes (list_ascii_of_string (key_Label key))
                                labelSigBytes) ;;
  if negb valid then fail ErrInvalidSignatureKey else
  ret (<[key_Label key := key]> keys).

(** The body of the second loop: one signature of the invoice. *)
Definition checkSignature (keys : gmap string SignatureKey) (s : Signature)
    : M unit :=
  match keys !! sig_By s with
  | None => fail ErrMissingSignatureKey
  | Some key =>
      if negb (IncludesRole key (sig_Role s)) then fail ErrSignatureKeyRoleMismatch else
      keyBytes <- call (base64.DecodeString (key_Key key)) ;;
      sigBytes <- call (base64.DecodeString (sig_Signature s)) ;;
      i <- self ;;
      let cleartext :=
        list_ascii_of_string (generateCleartext i (key_Label key) (sig_Role s)) in
      valid <- call (ed25519.Verify keyBytes cleartext sigBytes) ;;
      if negb valid then fail ErrInvalidSignature else ret tt
  end.

Definition VerifySignatures (sigKeys : list SignatureKey) : M unit :=
  keys <- forRangeWith sigKeys indexKey ∅ ;;
  i <- self ;;
  forRange (elems (inv_Signature i)) (checkSignature keys).

End Signing.

(** ** Specification-side notions *)

(** The role vocabulary as the spec lists it. *)
Definition roleVocabulary : list string :=
  ["creator"; "approver"; "proxy"; "host"]%string.

(** The digests of the parcels of an invoice, in list order. *)
Definition parcelDigests (i : Invoice) : list string :=
  map (fun p => SHA256 (parcel_Label p)) (inv_Parcel i).

(** The sequence of fields the spec gives for the canonical text. *)
Definition cleartextFields (i : Invoice) (author role : string) : list string :=
  [author; Name (inv_Bindle i); Version (inv_Bindle i); role; "~"%string]
    ++ parcelDigests i.

(** A string without the separator byte. *)
Fixpoint newlineFree (s : string) : bool :=
  match s with
  | EmptyString => true
  | String c s' => negb (Ascii.eqb c "010"%char) && newlineFree s'
  end.

(** The map that results from storing every key of a list under its
    label, in list order. *)
Definition indexKeys (keys : list SignatureKey) (m : gmap string SignatureKey)
    : gmap string SignatureKey :=
  fold_left (fun m k => <[key_Label k := k]> m) keys m.

Section Notions.

Context `{E : Ed25519}.

(** A key is well formed when both base64 fields decode and the key has
    the size of an Ed25519 public key. *)
Definition wellFormedKey (k : SignatureKey) : bool :=
  match base64.DecodeString (key_Key k),
        base64.DecodeString (key_LabelSignature k) with
  | Ok keyBytes, Ok _ => Nat.eqb (length keyBytes) 32
  | _, _ => false
  end.

(** The self-certificate of a key: its label signature verifies against
    its own key over its own label. *)
Definition selfCertifies (k : SignatureKey) : bool :=
  match base64.DecodeString (key_Key k),
        base64.DecodeString (key_LabelSignature k) with
  | Ok keyBytes, Ok labelSigBytes =>
      Nat.eqb (length keyBytes) 32
      && verify keyBytes (list_ascii_of_string (key_Label k)) labelSigBytes
  | _, _ => false
  end.

(** The signature [s] of invoice [i] verifies against key [k]: the key
    has the role of the record, and the stored signature is a signature by
    this key of the canonical text for the record's author and role. *)
Definition recordVerifies (i : Invoice) (k : SignatureKey) (s : Signature) : bool :=
  IncludesRole k (sig_Role s)
  && match base64.DecodeString (key_Key k),
           base64.DecodeString (sig_Signature s) with
     | Ok keyBytes, Ok sigBytes =>
         Nat.eqb (length keyBytes) 32
         && verify keyBytes
              (list_ascii_of_string (generateCleartext i (sig_By s) (sig_Role s)))
              sigBytes
     | _, _ => false
     end.

(** The last key of the list that carries a given label. *)
Definition lastWithLabel (keys : list SignatureKey) (label : string)
    : option SignatureKey :=
  find (fun k => String.eqb (key_Label k) label) (rev keys).

(** A private key and a public key belong together when their sizes are
    right and every signature made with the one verifies with the other. *)
Definition KeyPair (privKey pubKey : bytes) : Prop :=
  length privKey = 64 /\ length pubKey = 32 /\
  forall msg, verify pubKey msg (sign privKey msg) = true.

End Notions.

(** An invoice changed only by a call that leaves it alone. *)
Definition preserves {A : Type} (m : M A) : Prop :=
  forall i, snd (m i) = i.

(** ** A model signature scheme and test data

    To run the code on concrete inputs the scheme parameter is filled with
    a small deterministic scheme of the same shape as Ed25519: a private
    key is a 32-byte seed followed by the 32-byte public key, and a
    signature is a 64-byte tag computed from the public key and the
    message. It is a scheme in the sense of [KeyPair]; it makes no claim of
    security. *)

Module Model.

Fixpoint checksum (h : N) (msg : bytes) : N :=
  match msg with
  | [] => h
  | c :: rest => checksum ((h * 131 + N_of_ascii c + 1) mod 4294967291)%N rest
  end.

Definition tag (pubKey message : bytes) : bytes :=
  let h := checksum (checksum 7 pubKey) message in
  map (fun k => ascii_of_N ((h / (N.of_nat k + 1)) mod 256)%N) (seq 0 64).

Definition scheme : Ed25519 := {|
  sign := fun privKey message => tag (skipn 32 privKey) message;
  verify := fun pubKey message sig => bool_decide (sig = tag pubKey message)
|}.

End Model.

Module Fixture.

Open Scope string_scope.

Definition matt : string := "Matt Butcher <matt.butcher@example.com>".

(** The invoice of the comment at the top of [signature.go], not yet
    signed. *)
Definition invoice : Invoice := {|
  inv_Bindle := {| Name := "mybindle"; Version := "0.1.0"; Authors := [matt] |};
  inv_Parcel :=
    [ {| parcel_Label := {| SHA256 := "e1706ab0a39ac88094b6d54a3f5cdba41fe5a901" |} |};
      {| parcel_Label := {| SHA256 := "098fa798779ac88094b6d54a3f5cdba41fe5a901" |} |};
      {| parcel_Label := {| SHA256 := "5b992e90b71d5fadab3cd3777230ef370df75f5b" |} |} ];
  inv_Signature := None
|}.

(** Two key pairs of the model scheme. *)
Definition pubA : bytes := list_ascii_of_string "matt-butcher-public-key-00000001".
Definition privA : bytes :=
  (list_ascii_of_string "matt-butcher-secret-seed-0000001" ++ pubA)%list.
Definition pubB : bytes := list_ascii_of_string "matt-butcher-public-key-00000002".
Definition privB : bytes :=
  (list_ascii_of_string "matt-butcher-secret-seed-0000002" ++ pubB)%list.

(** The key of the author: labelled with the author, self-certified. *)
Definition keyA : SignatureKey := {|
  key_Label := matt;
  key_Roles := ["creator"];
  key_Key := "bWF0dC1idXRjaGVyLXB1YmxpYy1rZXktMDAwMDAwMDE=";
  key_LabelSignature :=
    "BoNXQTQrtyByGowV7FsREMS5eQ3nxjcKpPYmLQkIEIjZYr5cTDykBldzrGOwG1cFh9JBe02THJZ9BAgEAIiixA=="
|}.

(** A second self-certified key under the same label, with other key
    material. *)
Definition keyB : SignatureKey := {|
  key_Label := matt;
  key_Roles := ["creator"];
  key_Key := "bWF0dC1idXRjaGVyLXB1YmxpYy1rZXktMDAwMDAwMDI=";
  key_LabelSignature :=
    "Gw2zhgVZcUPmAussULhXoadz84HQdSIWASj3XIWrrlD500m5YXlwQOfo4jrHkZOLxwA3lEh7Ly77wkXVQ9dFqA=="
|}.

(** The first key pair again, self-certified under a label that is not the
    author's name. *)
Definition keyRelease : SignatureKey := {|
  key_Label := "release-key";
  key_Roles := ["creator"];
  key_Key := "bWF0dC1idXRjaGVyLXB1YmxpYy1rZXktMDAwMDAwMDE=";
  key_LabelSignature :=
    "BYIBQWeASaBVs0bAO6TN0EsqodltI3rgRx1xUkbmhOgXJQ6VKdAT7Ls2ZZFEPW3wCiPDjkO42qk1oyLzYMJ59A=="
|}.

(** The author's key with the label signature of another label: its
    self-certificate does not verify. *)
Definition keyBadCert : SignatureKey := {|
  key_Label := matt;
  key_Roles := ["creator"];
  key_Key := "bWF0dC1idXRjaGVyLXB1YmxpYy1rZXktMDAwMDAwMDE=";
  key_LabelSignature :=
    "BYIBQWeASaBVs0bAO6TN0EsqodltI3rgRx1xUkbmhOgXJQ6VKdAT7Ls2ZZFEPW3wCiPDjkO42qk1oyLzYMJ59A=="
|}.

(** A key whose [Key] field is not base64. *)
Definition keyCorrupt : SignatureKey := {|
  key_Label := "Someone Else <someone.else@example.com>";
  key_Roles := ["approver"];
  key_Key := "not*base64";
  key_LabelSignature := "AAAA"
|}.

(** A key whose fields are base64 but whose [Key] decodes to three bytes. *)
Definition keyShort : SignatureKey := {|
  key_Label := matt;
  key_Roles := ["creator"];
  key_Key := "AAAA";
  key_LabelSignature := "AAAA"
|}.

Definition clock : Z := 1600000000.

(** The signature record that signing the invoice as creator with the
    first key pair at time [clock] produces, and the signed invoice. *)
Definition creatorSignature : Signature := {|
  sig_By := matt;
  sig_Signature :=
    "v1+VL7/KrZcx3+JlNlbqSwuY1G858Y0y8xsQKwb1WKX2BYnMiOq8t+Uck3ijRrIZYfmujcSI+hWcA2d6fCy90g==";
  sig_Key := "bWF0dC1idXRjaGVyLXB1YmxpYy1rZXktMDAwMDAwMDE=";
  sig_Role := "creator";
  sig_At := clock
|}.

Definition signedInvoice : Invoice := {|
  inv_Bindle := inv_Bindle invoice;
  inv_Parcel := inv_Parcel invoice;
  inv_Signature := Some [creatorSignature]
|}.

(** An invoice that already carries the signature of another party. *)
Definition approverSignature : Signature := {|
  sig_By := "Someone Else <someone.else@example.com>";
  sig_Signature := "AAAA";
  sig_Key := "AAAA";
  sig_Role := "approver";
  sig_At := 1500000000
|}.

Definition approvedInvoice : Invoice := {|
  inv_Bindle := inv_Bindle invoice;
  inv_Parcel := inv_Parcel invoice;
  inv_Signature := Some [approverSignature]
|}.

(** Two pairs of invoices with the same bindle: in the first pair a
    newline moves from one digest to the next, in the second the two
    parcels are swapped. *)
Definition digests (l : list string) : Invoice := {|
  inv_Bindle := inv_Bindle invoice;
  inv_Parcel := map (fun d => {| parcel_Label := {| SHA256 := d |} |}) l;
  inv_Signature := None
|}.

Definition movedA : Invoice := digests [String.append "a" (String.append newline "b"); "c"].
Definition movedB : Invoice := digests ["a"; String.append "b" (String.append newline "c")].
Definition swappedA : Invoice := digests [String.append "a" (String.append newline "a"); "a"].
Definition swappedB : Invoice := digests ["a"; String.append "a" (String.append newline "a")].

(** The invoice of the other party after the author signed it as well. *)
Definition countersignedInvoice : Invoice := {|
  inv_Bindle := inv_Bindle invoice;
  inv_Parcel := inv_Parcel invoice;
  inv_Signature := Some [approverSignature; creatorSignature]
|}.

(** The signed invoice with the role of the record changed to approver. *)
Definition relabelledInvoice : Invoice := {|
  inv_Bindle := inv_Bindle invoice;
  inv_Parcel := inv_Parcel invoice;
  inv_Signature :=
    Some [{| sig_By := sig_By creatorSignature;
             sig_Signature := sig_Signature creatorSignature;
             sig_Key := sig_Key creatorSignature;
             sig_Role := "approver";
             sig_At := sig_At creatorSignature |}]
|}.

End Fixture.

(** ** Test data with a second party *)

Module Party.

Open Scope string_scope.

Definition someone : string := "Someone Else <someone.else@example.com>".

(** The key of the second party: the second key pair, self-certified under
    the name of the second party, for the role of approver. *)
Definition keyC : SignatureKey := {|
  key_Label := someone;
  key_Roles := ["approver"];
  key_Key := "bWF0dC1idXRjaGVyLXB1YmxpYy1rZXktMDAwMDAwMDI=";
  key_LabelSignature :=
    "VKocVaqO56q0VXzHBvM41bnapqpNPnLjIoPmefoc2WrU3GHtjNMCVWWm8B+9uSLx1xE9QSPzsjw3/ZCOHuwZNQ=="
|}.

(** The invoice with both parties as authors, signed by the first. *)
Definition sharedInvoice : Invoice := {|
  inv_Bindle :=
    {| Name := "mybindle"; Version := "0.1.0";
       Authors := [Fixture.matt; someone] |};
  inv_Parcel := inv_Parcel Fixture.invoice;
  inv_Signature := Some [Fixture.creatorSignature]
|}.

(** The signed invoice without its authors, and with the key and the time
    of its record blanked. *)
Definition strippedInvoice : Invoice := {|
  inv_Bindle := {| Name := "mybindle"; Version := "0.1.0"; Authors := [] |};
  inv_Parcel := inv_Parcel Fixture.invoice;
  inv_Signature :=
    Some [{| sig_By := sig_By Fixture.creatorSignature;
             sig_Signature := sig_Signature Fixture.creatorSignature;
             sig_Key := "";
             sig_Role := sig_Role Fixture.creatorSignature;
             sig_At := 0 |}]
|}.

End Party.

(** * Properties *)

(** ** The standard base64 encoding round-trips *)


Lemma alphabet_table :
  forallb (fun k => match base64.decodeMap (base64.encodeChar k) with
                    | Some v => N.eqb v k && negb (base64.isNewline (base64.encodeChar k))
                    | None => false
                    end)
          (map N.of_nat (seq 0 64)) = true.
Proof. vm_compute. reflexivity. Qed.

Lemma encodeChar_spec (v : N) :
  base64.decodeMap (base64.encodeChar v) = Some (v mod 64)%N /\ base64.isNewline (base64.encodeChar v) = false.
Proof.
  assert (Hm : base64.encodeChar v = base64.encodeChar (v mod 64)).
  { unfold base64.encodeChar. now rewrite N.Div0.mod_mod. }
  rewrite Hm.
  assert (Hlt : (v mod 64 < 64)%N) by (apply N.mod_lt; discriminate).
  pose proof alphabet_table as Ht.
  rewrite forallb_forall in Ht.
  specialize (Ht (v mod 64)%N).
  assert (Hin : In (v mod 64)%N (map N.of_nat (seq 0 64))).
  { apply in_map_iff. exists (N.to_nat (v mod 64)). split; [apply N2Nat.id|].
    apply in_seq. set (k := (v mod 64)%N) in *. clearbody k. lia. }
  specialize (Ht Hin).
  destruct (base64.decodeMap (base64.encodeChar (v mod 64))) as [w|]; [|discriminate].
  apply andb_prop in Ht as [H1 H2].
  apply N.eqb_eq in H1. subst w. split; [reflexivity|].
  now apply negb_true_iff in H2.
Qed.

Lemma decodeMap_encodeChar (v : N) : base64.decodeMap (base64.encodeChar v) = Some (v mod 64)%N.
Proof. apply encodeChar_spec. Qed.

Lemma decodeMap_pad : base64.decodeMap base64.StdPadding = None.
Proof. reflexivity. Qed.

Lemma list3_ind {A} (P : list A -> Prop) :
  P [] -> (forall a, P [a]) -> (forall a b, P [a; b]) ->
  (forall a b c rest, P rest -> P (a :: b :: c :: rest)) ->
  forall l, P l.
Proof.
  intros H0 H1 H2 H3.
  fix IH 1. intros [|a [|b [|c rest]]];
    [apply H0 | apply H1 | apply H2 | apply H3, IH].
Qed.

Lemma encode_no_newline (src : list ascii) :
  List.filter (fun c => negb (base64.isNewline c)) (base64.encode src) = base64.encode src.
Proof.
  induction src as [|a|a b|a b c rest IH] using list3_ind; cbn [base64.encode List.filter].
  - reflexivity.
  - rewrite !(proj2 (encodeChar_spec _)). reflexivity.
  - rewrite !(proj2 (encodeChar_spec _)). reflexivity.
  - rewrite !(proj2 (encodeChar_spec _)). cbn [negb]. now rewrite IH.
Qed.

Lemma quantum1 (a : N) : (a < 256)%N ->
  ((((a * 65536) / 262144) mod 64 * 262144 + ((a * 65536) / 4096) mod 64 * 4096)
     / 65536 = a)%N.
Proof. intros. zify. Z.to_euclidean_division_equations. lia. Qed.

Lemma quantum2 (a b : N) : (a < 256)%N -> (b < 256)%N ->
  let val := (a * 65536 + b * 256)%N in
  let val' := ((val / 262144) mod 64 * 262144 + (val / 4096) mod 64 * 4096
               + (val / 64) mod 64 * 64)%N in
  (val' / 65536 = a /\ (val' / 256) mod 256 = b)%N.
Proof.
  intros Ha Hb val val'. subst val val'.
  split; zify; Z.to_euclidean_division_equations; lia.
Qed.

Lemma quantum3 (a b c : N) : (a < 256)%N -> (b < 256)%N -> (c < 256)%N ->
  let val := (a * 65536 + b * 256 + c)%N in
  let val' := ((val / 262144) mod 64 * 262144 + (val / 4096) mod 64 * 4096
               + (val / 64) mod 64 * 64 + val mod 64)%N in
  (val' / 65536 = a /\ (val' / 256) mod 256 = b /\ val' mod 256 = c)%N.
Proof.
  intros Ha Hb Hc val val'. subst val val'.
  repeat split; zify; Z.to_euclidean_division_equations; lia.
Qed.

Lemma decodeQuanta_encode (src : list ascii) :
  base64.decodeQuanta (base64.encode src) = Some src.
Proof.
  induction src as [|a|a b|a b c rest IH] using list3_ind;
    cbn [base64.encode base64.decodeQuanta].
  - reflexivity.
  - rewrite !decodeMap_encodeChar, decodeMap_pad. cbn.
    rewrite quantum1 by apply N_ascii_bounded.
    now rewrite ascii_N_embedding.
  - rewrite !decodeMap_encodeChar, decodeMap_pad. cbn.
    destruct (quantum2 (N_of_ascii a) (N_of_ascii b)) as [-> ->];
      try apply N_ascii_bounded.
    now rewrite !ascii_N_embedding.
  - rewrite !decodeMap_encodeChar, IH. cbn zeta.
    destruct (quantum3 (N_of_ascii a) (N_of_ascii b) (N_of_ascii c))
      as (-> & -> & ->); try apply N_ascii_bounded.
    now rewrite !ascii_N_embedding.
Qed.

Lemma DecodeString_EncodeToString (src : bytes) :
  base64.DecodeString (base64.EncodeToString src) = Ok src.
Proof.
  unfold base64.DecodeString, base64.EncodeToString.
  rewrite list_ascii_of_string_of_list_ascii, encode_no_newline.
  now rewrite decodeQuanta_encode.
Qed.


(** ** [strings.Join] and the canonical text *)

Lemma append_cons (c : ascii) (s t : string) :
  String.append (String c s) t = String c (String.append s t).
Proof. reflexivity. Qed.

Lemma append_assoc (s t u : string) :
  String.append (String.append s t) u = String.append s (String.append t u).
Proof.
  induction s as [|c s IH]; [reflexivity|].
  now rewrite !append_cons, IH.
Qed.

Lemma concat_cons_app (sep a b : string) (rest : list string) :
  String.concat sep (String.append a b :: rest)
  = String.append a (String.concat sep (b :: rest)).
Proof.
  destruct rest as [|y rest]; cbn [String.concat]; [reflexivity|].
  now rewrite append_assoc.
Qed.

Lemma Join_fold (sep e : string) (rest : list string) :
  fold_left (fun b s => String.append (String.append b sep) s) rest e
  = String.concat sep (e :: rest).
Proof.
  revert e. induction rest as [|x rest IH]; intros e; [reflexivity|].
  cbn [fold_left]. rewrite IH.
  rewrite append_assoc, !concat_cons_app.
  reflexivity.
Qed.

Lemma Join_concat (l : list string) (sep : string) :
  GoStrings.Join l sep = String.concat sep l.
Proof. destruct l as [|e rest]; [reflexivity|]. apply Join_fold. Qed.

Lemma append_loop {A B : Type} (f : A -> B) (l : list A) (init : list B) :
  fold_left (fun parts p => parts ++ [f p]) l init = init ++ map f l.
Proof.
  revert init. induction l as [|p l IH]; intros init; cbn [fold_left map].
  - now rewrite app_nil_r.
  - rewrite IH, <- app_assoc. reflexivity.
Qed.

Lemma generateCleartext_fields (i : Invoice) (author role : string) :
  generateCleartext i author role
  = String.concat newline (cleartextFields i author role).
Proof.
  unfold generateCleartext, cleartextFields, parcelDigests.
  now rewrite append_loop, Join_concat.
Qed.

(** C1. The canonical text is the join with newlines of the author, the
    name and the version of the bindle, the role, the token [~] and the
    digests of the parcels in list order; for the invoice of the comment in
    the source it is the eight lines given there. *)
Theorem C1_cleartext_format :
  (forall (i : Invoice) (author role : string),
      generateCleartext i author role
      = String.concat newline
          ([author; Name (inv_Bindle i); Version (inv_Bindle i); role; "~"%string]
             ++ map (fun p => SHA256 (parcel_Label p)) (inv_Parcel i)))
  /\ generateCleartext Fixture.invoice
       "Matt Butcher <matt.butcher@example.com>" "creator"
     = "Matt Butcher <matt.butcher@example.com>
mybindle
0.1.0
creator
~
e1706ab0a39ac88094b6d54a3f5cdba41fe5a901
098fa798779ac88094b6d54a3f5cdba41fe5a901
5b992e90b71d5fadab3cd3777230ef370df75f5b"%string.
Proof.
  split; [|reflexivity].
  intros i author role. apply generateCleartext_fields.
Qed.

(** ** The canonical text determines the digests *)

Lemma append_nil_r (s : string) : String.append s EmptyString = s.
Proof. induction s as [|c s IH]; [reflexivity|]. now rewrite append_cons, IH. Qed.

(** What follows the first field of a join: nothing, or the separator and
    the join of the other fields. *)
Lemma concat_cons (sep x : string) (l : list string) :
  String.concat sep (x :: l)
  = String.append x
      (match l with
       | [] => EmptyString
       | _ :: _ => String.append sep (String.concat sep l)
       end).
Proof. destruct l; cbn [String.concat]; [now rewrite append_nil_r|reflexivity]. Qed.

(** A field without newline ends where the text ends or the next newline
    starts. *)
Lemma field_boundary (h1 h2 r1 r2 : string) :
  newlineFree h1 = true -> newlineFree h2 = true ->
  (r1 = EmptyString \/ exists t, r1 = String "010"%char t) ->
  (r2 = EmptyString \/ exists t, r2 = String "010"%char t) ->
  String.append h1 r1 = String.append h2 r2 ->
  h1 = h2 /\ r1 = r2.
Proof.
  revert h2. induction h1 as [|c1 h1 IH]; intros [|c2 h2] F1 F2 R1 R2 Heq.
  - split; [reflexivity|exact Heq].
  - exfalso. change (r1 = String c2 (String.append h2 r2)) in Heq.
    cbn [newlineFree] in F2. apply andb_prop in F2 as [Hc _].
    destruct R1 as [->|[t ->]]; [discriminate|].
    injection Heq as <- _. discriminate.
  - exfalso. change (String c1 (String.append h1 r1) = r2) in Heq.
    cbn [newlineFree] in F1. apply andb_prop in F1 as [Hc _].
    destruct R2 as [->|[t ->]]; [discriminate|].
    injection Heq as -> _. discriminate.
  - rewrite !append_cons in Heq. injection Heq as -> Heq.
    cbn [newlineFree] in F1, F2.
    apply andb_prop in F1 as [_ F1]. apply andb_prop in F2 as [_ F2].
    destruct (IH h2 F1 F2 R1 R2 Heq) as [-> ->]. split; reflexivity.
Qed.

Lemma concat_newline_inj (l1 l2 : list string) (x1 x2 : string) :
  forallb newlineFree (x1 :: l1) = true ->
  forallb newlineFree (x2 :: l2) = true ->
  String.concat newline (x1 :: l1) = String.concat newline (x2 :: l2) ->
  x1 :: l1 = x2 :: l2.
Proof.
  revert l2 x1 x2. induction l1 as [|y1 l1 IH]; intros l2 x1 x2 F1 F2 Heq;
    cbn [forallb] in F1, F2;
    apply andb_prop in F1 as [Fx1 F1]; apply andb_prop in F2 as [Fx2 F2];
    destruct l2 as [|y2 l2];
    rewrite (concat_cons newline x1), (concat_cons newline x2) in Heq;
    apply field_boundary in Heq as [Hx Hrest];
    try assumption; try (left; reflexivity);
    try (right; eexists; reflexivity).
  - now subst.
  - discriminate.
  - discriminate.
  - subst x2. injection Hrest as Hrest.
    now rewrite (IH l2 y1 y2 F1 F2 Hrest).
Qed.

Lemma generateCleartext_digests (i1 i2 : Invoice) (author role : string) :
  inv_Bindle i1 = inv_Bindle i2 ->
  forallb newlineFree (parcelDigests i1) = true ->
  forallb newlineFree (parcelDigests i2) = true ->
  generateCleartext i1 author role = generateCleartext i2 author role ->
  parcelDigests i1 = parcelDigests i2.
Proof.
  intros Hb F1 F2 Heq.
  rewrite !generateCleartext_fields in Heq.
  unfold cleartextFields in Heq. rewrite Hb in Heq.
  cbn [List.app String.concat] in Heq.
  do 4 (apply (inj (String.append _)) in Heq; apply (inj (String.append _)) in Heq).
  apply concat_newline_inj in Heq; [now injection Heq| |]; cbn [forallb]; auto.
Qed.

(** C7, as stated, fails: a newline inside a digest is not escaped, so two
    different sequences of digests can give one canonical text, also when
    one sequence is a permutation of the other. *)
Lemma C7_counterexample :
  inv_Bindle Fixture.movedA = inv_Bindle Fixture.movedB
  /\ parcelDigests Fixture.movedA <> parcelDigests Fixture.movedB
  /\ generateCleartext Fixture.movedA Fixture.matt "creator"
     = generateCleartext Fixture.movedB Fixture.matt "creator"
  /\ inv_Bindle Fixture.swappedA = inv_Bindle Fixture.swappedB
  /\ parcelDigests Fixture.swappedA <> parcelDigests Fixture.swappedB
  /\ Permutation (inv_Parcel Fixture.swappedA) (inv_Parcel Fixture.swappedB)
  /\ generateCleartext Fixture.swappedA Fixture.matt "creator"
     = generateCleartext Fixture.swappedB Fixture.matt "creator".
Proof.
  repeat split; try reflexivity; try discriminate.
  apply perm_swap.
Qed.

(** C7, amended. When no digest contains a newline, two invoices with the
    same bindle and different sequences of digests (a digest changed, or
    the parcels in another order) have different canonical texts, for
    every author and role. *)
Theorem C7_cleartext_injective (i1 i2 : Invoice) (author role : string) :
  inv_Bindle i1 = inv_Bindle i2 ->
  forallb newlineFree (parcelDigests i1) = true ->
  forallb newlineFree (parcelDigests i2) = true ->
  parcelDigests i1 <> parcelDigests i2 ->
  generateCleartext i1 author role <> generateCleartext i2 author role.
Proof.
  intros Hb F1 F2 Hne Heq. apply Hne.
  exact (generateCleartext_digests i1 i2 author role Hb F1 F2 Heq).
Qed.

Lemma C7_cleartext_injective_witness :
  generateCleartext Fixture.invoice Fixture.matt "creator"
  <> generateCleartext
       (Fixture.digests ["098fa798779ac88094b6d54a3f5cdba41fe5a901";
                         "e1706ab0a39ac88094b6d54a3f5cdba41fe5a901";
                         "5b992e90b71d5fadab3cd3777230ef370df75f5b"]%string)
       Fixture.matt "creator".
Proof.
  apply C7_cleartext_injective;
    [reflexivity | reflexivity | reflexivity | discriminate].
Defined.

(** ** Membership loops and the role table *)

Lemma includes_In (roles : list string) (role : string) :
  includes roles role = true <-> In role roles.
Proof.
  induction roles as [|r roles IH]; cbn [includes In]; [split; [discriminate|tauto]|].
  destruct (String.eqb_spec r role) as [->|Hne]; [tauto|].
  rewrite IH. split; [tauto|]. intros [Heq|Hin]; [contradiction|assumption].
Qed.

Lemma authoredBy_In (authors : list string) (author : string) :
  authoredBy authors author = true <-> In author authors.
Proof.
  induction authors as [|a authors IH]; cbn [authoredBy In];
    [split; [discriminate|tauto]|].
  destruct (String.eqb_spec a author) as [->|Hne]; [tauto|].
  rewrite IH. split; [tauto|]. intros [Heq|Hin]; [contradiction|assumption].
Qed.

Lemma ValidRoles_vocabulary (role : string) :
  In role roleVocabulary -> mapIndex ValidRoles role = (true, true).
Proof.
  unfold roleVocabulary. cbn [In].
  intros [<-|[<-|[<-|[<-|[]]]]]; reflexivity.
Qed.

Lemma ValidRoles_other (role : string) :
  ~ In role roleVocabulary -> mapIndex ValidRoles role = (false, false).
Proof.
  unfold roleVocabulary. cbn [In]. intros Hnot.
  unfold mapIndex, ValidRoles, RoleHost, RoleProxy, RoleApprover, RoleCreator.
  rewrite !lookup_insert_ne by (intros <-; tauto).
  now rewrite lookup_empty.
Qed.

(** ** [GenerateSignature] *)

Section GenerateSignatureFacts.

Context `{E : Ed25519}.

Implicit Types (now : Z) (author role : string) (k : SignatureKey).
Implicit Types (privKey : bytes) (i : Invoice).

Lemma GenerateSignature_invalid_role now author role k privKey i :
  ~ In role roleVocabulary ->
  GenerateSignature now author role k privKey i = (Err ErrInvalidRole, i).
Proof.
  intros H. unfold GenerateSignature. now rewrite (ValidRoles_other role H).
Qed.

Lemma GenerateSignature_role_mismatch now author role k privKey i :
  In role roleVocabulary -> IncludesRole k role = false ->
  GenerateSignature now author role k privKey i = (Err ErrSignatureKeyRoleMismatch, i).
Proof.
  intros H Hk. unfold GenerateSignature.
  now rewrite (ValidRoles_vocabulary role H), Hk.
Qed.

Lemma GenerateSignature_no_author now author role k privKey i :
  In role roleVocabulary -> IncludesRole k role = true ->
  ~ In author (Authors (inv_Bindle i)) ->
  GenerateSignature now author role k privKey i = (Err ErrAuthorNotExist, i).
Proof.
  intros H Hk Ha. unfold GenerateSignature.
  rewrite (ValidRoles_vocabulary role H), Hk. cbn.
  unfold bind, self, IsAuthoredBy.
  destruct (authoredBy (Authors (inv_Bindle i)) author) eqn:Hau; [|reflexivity].
  apply authoredBy_In in Hau. contradiction.
Qed.

(** Past the three checks the call signs, decodes the key and appends. *)
Lemma GenerateSignature_signs now author role k privKey i :
  In role roleVocabulary -> IncludesRole k role = true ->
  In author (Authors (inv_Bindle i)) ->
  GenerateSignature now author role k privKey i
  = match ed25519.Sign privKey
            (list_ascii_of_string (generateCleartext i author role)) with
    | Ok sig =>
        match base64.DecodeString (key_Key k) with
        | Ok pubKey =>
            (Ok tt,
             {| inv_Bindle := inv_Bindle i;
                inv_Parcel := inv_Parcel i;
                inv_Signature :=
                  Some (elems (inv_Signature i)
                        ++ [{| sig_By := author;
                               sig_Signature := base64.EncodeToString sig;
                               sig_Key := base64.EncodeToString pubKey;
                               sig_Role := role;
                               sig_At := now |}]) |})
        | Err e => (Err e, i)
        | Panic msg => (Panic msg, i)
        end
    | Err e => (Err e, i)
    | Panic msg => (Panic msg, i)
    end.
Proof.
  intros H Hk Ha. unfold GenerateSignature.
  rewrite (ValidRoles_vocabulary role H), Hk. cbn.
  unfold bind, self, call, IsAuthoredBy.
  apply authoredBy_In in Ha. rewrite Ha. cbn.
  destruct (ed25519.Sign privKey _) as [sig|e|msg]; try reflexivity.
  destruct (base64.DecodeString (key_Key k)) as [pubKey|e|msg]; try reflexivity.
  destruct i as [b p [sigs|]]; reflexivity.
Qed.

Lemma GenerateSignature_cases now author role k privKey i :
  (~ In role roleVocabulary)
  \/ (In role roleVocabulary /\ IncludesRole k role = false)
  \/ (In role roleVocabulary /\ IncludesRole k role = true
      /\ ~ In author (Authors (inv_Bindle i)))
  \/ (In role roleVocabulary /\ IncludesRole k role = true
      /\ In author (Authors (inv_Bindle i))).
Proof.
  destruct (In_dec String.string_dec role roleVocabulary) as [H|H]; [|tauto].
  destruct (IncludesRole k role) eqn:Hk; [|tauto].
  destruct (In_dec String.string_dec author (Authors (inv_Bindle i))); tauto.
Qed.

(** C5. The three preconditions are checked in order: a role outside the
    vocabulary gives [ErrInvalidRole] whatever the other arguments are;
    otherwise a key without the role gives [ErrSignatureKeyRoleMismatch];
    otherwise an author not on the invoice gives [ErrAuthorNotExist]; and
    when all three hold the call goes on to sign, so its result is none of
    the three errors but the outcome of signing, decoding and appending. *)
Theorem C5_precondition_order now author role k privKey i :
  (~ In role roleVocabulary ->
   GenerateSignature now author role k privKey i = (Err ErrInvalidRole, i))
  /\ (In role roleVocabulary -> IncludesRole k role = false ->
      GenerateSignature now author role k privKey i
      = (Err ErrSignatureKeyRoleMismatch, i))
  /\ (In role roleVocabulary -> IncludesRole k role = true ->
      ~ In author (Authors (inv_Bindle i)) ->
      GenerateSignature now author role k privKey i = (Err ErrAuthorNotExist, i))
  /\ (In role roleVocabulary -> IncludesRole k role = true ->
      In author (Authors (inv_Bindle i)) ->
      fst (GenerateSignature now author role k privKey i) <> Err ErrInvalidRole
      /\ fst (GenerateSignature now author role k privKey i)
         <> Err ErrSignatureKeyRoleMismatch
      /\ fst (GenerateSignature now author role k privKey i) <> Err ErrAuthorNotExist
      /\ fst (GenerateSignature now author role k privKey i)
         = match ed25519.Sign privKey
                   (list_ascii_of_string (generateCleartext i author role)) with
           | Ok _ =>
               match base64.DecodeString (key_Key k) with
               | Ok _ => Ok tt
               | Err e => Err e
               | Panic msg => Panic msg
               end
           | Err e => Err e
           | Panic msg => Panic msg
           end).
Proof.
  split; [apply GenerateSignature_invalid_role|].
  split; [apply GenerateSignature_role_mismatch|].
  split; [apply GenerateSignature_no_author|].
  intros H Hk Ha. rewrite (GenerateSignature_signs _ _ _ _ _ _ H Hk Ha).
  unfold ed25519.Sign, base64.DecodeString.
  destruct (Nat.eqb _ _); cbn; [|repeat split; discriminate].
  destruct (base64.decodeQuanta _); cbn; repeat split; discriminate.
Qed.

(** C6. A call that does not return [nil] leaves the invoice as it was. A
    call that returns [nil] keeps the bindle and the parcels, keeps every
    signature already stored and appends exactly one record, made of the
    author, the role, the time of the call, the encoded signature of the
    canonical text and the re-encoded public key; a [nil] list is treated
    as empty. *)
Theorem C6_append_only now author role k privKey i :
  match GenerateSignature now author role k privKey i with
  | (Ok _, i') =>
      inv_Bindle i' = inv_Bindle i /\ inv_Parcel i' = inv_Parcel i
      /\ exists pubKey,
           base64.DecodeString (key_Key k) = Ok pubKey
           /\ inv_Signature i'
              = Some (elems (inv_Signature i)
                      ++ [{| sig_By := author;
                             sig_Signature :=
                               base64.EncodeToString
                                 (sign privKey
                                    (list_ascii_of_string
                                       (generateCleartext i author role)));
                             sig_Key := base64.EncodeToString pubKey;
                             sig_Role := role;
                             sig_At := now |}])
  | (_, i') => i' = i
  end.
Proof.
  destruct (GenerateSignature_cases now author role k privKey i)
    as [H|[[H Hk]|[(H & Hk & Ha)|(H & Hk & Ha)]]].
  - now rewrite GenerateSignature_invalid_role.
  - now rewrite GenerateSignature_role_mismatch.
  - now rewrite GenerateSignature_no_author.
  - rewrite (GenerateSignature_signs _ _ _ _ _ _ H Hk Ha).
    unfold ed25519.Sign. destruct (Nat.eqb _ _); [|reflexivity].
    destruct (base64.DecodeString (key_Key k)) as [pubKey|e|msg];
      [|reflexivity|reflexivity].
    cbn. repeat split. exists pubKey. split; reflexivity.
Qed.

End GenerateSignatureFacts.

(** ** Loops that leave the invoice alone *)

Lemma forRange_app {A : Type} (pre post : list A) (body : A -> M unit) (i : Invoice) :
  forRange (pre ++ post) body i
  = bind (forRange pre body) (fun _ => forRange post body) i.
Proof.
  revert i. induction pre as [|x pre IH]; intros i; cbn [forRange List.app].
  - reflexivity.
  - unfold bind. destruct (body x i) as [[[]|e|msg] i']; try reflexivity.
    rewrite IH. reflexivity.
Qed.

Lemma forRange_all_ok {A : Type} (l : list A) (body : A -> M unit) (i : Invoice) :
  (forall x, In x l -> body x i = (Ok tt, i)) ->
  forRange l body i = (Ok tt, i).
Proof.
  induction l as [|x l IH]; intros Hall; cbn [forRange]; [reflexivity|].
  unfold bind. rewrite (Hall x (or_introl eq_refl)).
  apply IH. intros y Hy. apply Hall. now right.
Qed.

Lemma forRange_ok_inv {A : Type} (l : list A) (body : A -> M unit) (i i' : Invoice) :
  (forall x, preserves (body x)) ->
  forRange l body i = (Ok tt, i') ->
  forall x, In x l -> body x i = (Ok tt, i).
Proof.
  intros Hp. induction l as [|x l IH]; intros Hrun y Hy; [destruct Hy|].
  cbn [forRange] in Hrun. unfold bind in Hrun.
  pose proof (Hp x i) as Hx.
  destruct (body x i) as [[[]|e|msg] j] eqn:Hb; cbn in Hx; subst j;
    try discriminate.
  destruct Hy as [<-|Hy]; [exact Hb|]. now apply IH.
Qed.

Lemma forRange_first_failure {A : Type} (pre post : list A) (x : A)
    (body : A -> M unit) (i : Invoice) (r : result unit) :
  (forall y, In y pre -> body y i = (Ok tt, i)) ->
  body x i = (r, i) -> r <> Ok tt ->
  forRange (pre ++ x :: post) body i = (r, i).
Proof.
  intros Hpre Hx Hr. rewrite forRange_app. unfold bind.
  rewrite (forRange_all_ok pre body i Hpre). cbn [forRange]. unfold bind.
  rewrite Hx. destruct r as [[]|e|msg]; [congruence|reflexivity|reflexivity].
Qed.

Lemma forRange_preserves {A : Type} (l : list A) (body : A -> M unit) :
  (forall x, preserves (body x)) -> preserves (forRange l body).
Proof.
  intros Hp. induction l as [|x l IH]; intros i; cbn [forRange]; [reflexivity|].
  unfold bind. pose proof (Hp x i) as Hx.
  destruct (body x i) as [[[]|e|msg] j]; cbn in Hx; subst j; cbn; auto.
Qed.

Lemma find_app {A : Type} (p : A -> bool) (a b : list A) :
  find p (a ++ b) = match find p a with Some x => Some x | None => find p b end.
Proof.
  induction a as [|x a IH]; cbn [find List.app]; [reflexivity|].
  destruct (p x); [reflexivity|exact IH].
Qed.

(** What the map holds under a label after a list of keys was stored. *)
Lemma indexKeys_lookup (keys : list SignatureKey) (m : gmap string SignatureKey)
    (label : string) :
  indexKeys keys m !! label
  = match lastWithLabel keys label with
    | Some k => Some k
    | None => m !! label
    end.
Proof.
  unfold indexKeys, lastWithLabel. revert m.
  induction keys as [|k keys IH]; intros m; cbn [fold_left rev find]; [reflexivity|].
  rewrite IH, find_app. cbn [find].
  destruct (find _ (rev keys)) as [k'|]; [reflexivity|].
  destruct (String.eqb_spec (key_Label k) label) as [<-|Hne].
  - apply lookup_insert_eq.
  - now apply lookup_insert_ne.
Qed.

Lemma lastWithLabel_Some (keys : list SignatureKey) (label : string) (k : SignatureKey) :
  lastWithLabel keys label = Some k -> In k keys /\ key_Label k = label.
Proof.
  unfold lastWithLabel. intros H. apply find_some in H as [Hin Heq].
  split; [now apply in_rev|now apply String.eqb_eq].
Qed.

Lemma lastWithLabel_None (keys : list SignatureKey) (label : string) :
  lastWithLabel keys label = None <-> forall k, In k keys -> key_Label k <> label.
Proof.
  unfold lastWithLabel. split.
  - intros H k Hin Heq. apply in_rev in Hin.
    pose proof (find_none _ _ H k Hin) as Hk. cbn in Hk.
    apply String.eqb_neq in Hk. contradiction.
  - intros H. destruct (find _ (rev keys)) as [k|] eqn:Hf; [|reflexivity].
    apply find_some in Hf as [Hin Heq]. apply in_rev in Hin.
    apply String.eqb_eq in Heq. destruct (H k Hin Heq).
Qed.

Lemma indexKeys_labels (keys : list SignatureKey) (label : string) (k : SignatureKey) :
  indexKeys keys ∅ !! label = Some k -> In k keys /\ key_Label k = label.
Proof.
  rewrite indexKeys_lookup.
  destruct (lastWithLabel keys label) as [k'|] eqn:Hl.
  - intros [= <-]. now apply lastWithLabel_Some.
  - now rewrite lookup_empty.
Qed.

(** ** [VerifySignatures]: the first loop *)

Section VerifySignaturesFacts.

Context `{E : Ed25519}.

Implicit Types (k key : SignatureKey) (keys pre post : list SignatureKey).
Implicit Types (m : gmap string SignatureKey) (i : Invoice) (s : Signature).

Lemma indexKey_selfCertifies m k i :
  selfCertifies k = true ->
  indexKey m k i = (Ok (<[key_Label k := k]> m), i).
Proof.
  unfold selfCertifies, indexKey, bind, call, ed25519.Verify, ed25519.PublicKeySize.
  destruct (base64.DecodeString (key_Key k)) as [kb|e|msg]; try discriminate.
  destruct (base64.DecodeString (key_LabelSignature k)) as [lb|e|msg];
    try discriminate.
  intros H. apply andb_prop in H as [-> ->]. reflexivity.
Qed.

Lemma indexKey_fails k :
  selfCertifies k = false ->
  exists r : result (gmap string SignatureKey),
    (forall m, r <> Ok m) /\ forall m i, indexKey m k i = (r, i).
Proof.
  unfold selfCertifies, indexKey, bind, call, ed25519.Verify, ed25519.PublicKeySize.
  destruct (base64.DecodeString (key_Key k)) as [kb|e|msg];
    [|intros _; exists (Err e); split; [discriminate|reflexivity]
     |intros _; exists (Panic msg); split; [discriminate|reflexivity]].
  destruct (base64.DecodeString (key_LabelSignature k)) as [lb|e|msg];
    [|intros _; exists (Err e); split; [discriminate|reflexivity]
     |intros _; exists (Panic msg); split; [discriminate|reflexivity]].
  destruct (Nat.eqb (length kb) 32); cbn [andb].
  - intros ->. exists (Err ErrInvalidSignatureKey). split; [discriminate|reflexivity].
  - intros _. eexists (Panic _). split; [discriminate|reflexivity].
Qed.

Lemma indexKey_invalid k m i :
  wellFormedKey k = true -> selfCertifies k = false ->
  indexKey m k i = (Err ErrInvalidSignatureKey, i).
Proof.
  unfold wellFormedKey, selfCertifies, indexKey, bind, call, ed25519.Verify,
    ed25519.PublicKeySize.
  destruct (base64.DecodeString (key_Key k)) as [kb|e|msg]; try discriminate.
  destruct (base64.DecodeString (key_LabelSignature k)) as [lb|e|msg];
    try discriminate.
  intros -> H. cbn [andb] in H. now rewrite H.
Qed.

Lemma indexKey_bad_length k m i (keyBytes labelSigBytes : bytes) :
  base64.DecodeString (key_Key k) = Ok keyBytes ->
  base64.DecodeString (key_LabelSignature k) = Ok labelSigBytes ->
  length keyBytes <> 32 ->
  indexKey m k i = (Panic "ed25519: bad public key length", i).
Proof.
  intros Hk Hl Hlen.
  unfold indexKey, bind, call, ed25519.Verify, ed25519.PublicKeySize.
  rewrite Hk, Hl. apply Nat.eqb_neq in Hlen. now rewrite Hlen.
Qed.

Lemma indexKey_corrupt k m i :
  indexKey m k i = (Err CorruptInputError, i) ->
  base64.DecodeString (key_Key k) = Err CorruptInputError
  \/ base64.DecodeString (key_LabelSignature k) = Err CorruptInputError.
Proof.
  unfold indexKey, bind, call, ed25519.Verify.
  destruct (base64.DecodeString (key_Key k)) as [kb|e|msg];
    [|intros [= ->]; now left|discriminate].
  destruct (base64.DecodeString (key_LabelSignature k)) as [lb|e|msg];
    [|intros [= ->]; now right|discriminate].
  destruct (Nat.eqb _ _); [|discriminate].
  cbn. destruct (verify _ _ _); discriminate.
Qed.

Lemma indexAll_ok keys m i :
  forallb selfCertifies keys = true ->
  forRangeWith keys indexKey m i = (Ok (indexKeys keys m), i).
Proof.
  revert m. induction keys as [|k keys IH]; intros m H; [reflexivity|].
  cbn [forallb] in H. apply andb_prop in H as [Hk H].
  cbn [forRangeWith]. unfold bind. rewrite (indexKey_selfCertifies m k i Hk).
  now rewrite IH.
Qed.

Lemma indexAll_fails pre k post m i (r : result (gmap string SignatureKey)) :
  forallb selfCertifies pre = true ->
  (forall m', r <> Ok m') -> (forall m' i', indexKey m' k i' = (r, i')) ->
  forRangeWith (pre ++ k :: post) indexKey m i = (r, i).
Proof.
  revert m. induction pre as [|k' pre IH]; intros m H Hr Hk.
  - cbn [List.app forRangeWith]. unfold bind. rewrite Hk.
    destruct r as [m'|e|msg]; [destruct (Hr m' eq_refl)|reflexivity|reflexivity].
  - cbn [forallb] in H. apply andb_prop in H as [Hk' H].
    cbn [List.app forRangeWith]. unfold bind.
    rewrite (indexKey_selfCertifies m k' i Hk'). now apply IH.
Qed.

Lemma first_uncertified keys :
  forallb selfCertifies keys = false ->
  exists pre k post,
    keys = pre ++ k :: post /\ forallb selfCertifies pre = true
    /\ selfCertifies k = false.
Proof.
  induction keys as [|k keys IH]; [discriminate|].
  cbn [forallb]. destruct (selfCertifies k) eqn:Hk; cbn [andb].
  - intros H. destruct (IH H) as (pre & k' & post & -> & Hpre & Hk').
    exists (k :: pre), k', post. repeat split; [|assumption].
    cbn [forallb]. now rewrite Hk, Hpre.
  - intros _. exists [], k, keys. repeat split. assumption.
Qed.

Lemma indexAll_preserves keys m : preserves (forRangeWith keys indexKey m).
Proof.
  intros i. destruct (forallb selfCertifies keys) eqn:H.
  - now rewrite indexAll_ok.
  - destruct (first_uncertified keys H) as (pre & k & post & -> & Hpre & Hk).
    destruct (indexKey_fails k Hk) as (r & Hr & Hrun).
    now rewrite (indexAll_fails pre k post m i r Hpre Hr Hrun).
Qed.

Lemma indexAll_ok_inv keys m i m' i' :
  forRangeWith keys indexKey m i = (Ok m', i') ->
  forallb selfCertifies keys = true /\ m' = indexKeys keys m /\ i' = i.
Proof.
  destruct (forallb selfCertifies keys) eqn:H.
  - rewrite indexAll_ok by assumption. intros [= <- <-]. auto.
  - destruct (first_uncertified keys H) as (pre & k & post & -> & Hpre & Hk).
    destruct (indexKey_fails k Hk) as (r & Hr & Hrun).
    rewrite (indexAll_fails pre k post m i r Hpre Hr Hrun).
    intros [= -> _]. destruct (Hr m' eq_refl).
Qed.

(** ** [VerifySignatures]: the second loop *)

Lemma checkSignature_preserves m s : preserves (checkSignature m s).
Proof.
  intros i. unfold checkSignature, bind, call, self, fail, ret.
  destruct (m !! sig_By s) as [key|]; [|reflexivity].
  destruct (IncludesRole key (sig_Role s)); [|reflexivity]. cbn [negb].
  destruct (base64.DecodeString (key_Key key)); try reflexivity.
  destruct (base64.DecodeString (sig_Signature s)); try reflexivity.
  destruct (ed25519.Verify _ _ _) as [[]|e|msg]; reflexivity.
Qed.

Lemma checkSignature_missing m s i :
  m !! sig_By s = None -> checkSignature m s i = (Err ErrMissingSignatureKey, i).
Proof. intros H. unfold checkSignature. now rewrite H. Qed.

Lemma checkSignature_mismatch m s i key :
  m !! sig_By s = Some key -> IncludesRole key (sig_Role s) = false ->
  checkSignature m s i = (Err ErrSignatureKeyRoleMismatch, i).
Proof. intros H Hr. unfold checkSignature. now rewrite H, Hr. Qed.

Lemma checkSignature_verified m s i key :
  m !! sig_By s = Some key -> key_Label key = sig_By s ->
  recordVerifies i key s = true ->
  checkSignature m s i = (Ok tt, i).
Proof.
  intros H Hl. unfold recordVerifies, checkSignature. rewrite H, Hl.
  destruct (IncludesRole key (sig_Role s)); [|discriminate]. cbn [andb negb].
  unfold bind, call, self, ed25519.Verify, ed25519.PublicKeySize.
  destruct (base64.DecodeString (key_Key key)) as [kb|e|msg]; try discriminate.
  destruct (base64.DecodeString (sig_Signature s)) as [sb|e|msg]; try discriminate.
  intros Hv. apply andb_prop in Hv as [-> ->]. reflexivity.
Qed.

Lemma checkSignature_ok_inv m s i i' :
  checkSignature m s i = (Ok tt, i') ->
  exists key, m !! sig_By s = Some key
    /\ (key_Label key = sig_By s -> recordVerifies i key s = true).
Proof.
  unfold checkSignature, recordVerifies.
  destruct (m !! sig_By s) as [key|]; [|discriminate].
  intros H. exists key. split; [reflexivity|]. intros Hl. rewrite Hl in H.
  destruct (IncludesRole key (sig_Role s)); [|discriminate]. cbn [andb negb] in *.
  unfold bind, call, self, ed25519.Verify, ed25519.PublicKeySize in H.
  destruct (base64.DecodeString (key_Key key)) as [kb|e|msg]; try discriminate.
  destruct (base64.DecodeString (sig_Signature s)) as [sb|e|msg]; try discriminate.
  destruct (Nat.eqb (length kb) 32); [|discriminate].
  destruct (verify kb _ sb); [reflexivity|discriminate].
Qed.

Lemma checkSignature_invalid m s i key (keyBytes sigBytes : bytes) :
  m !! sig_By s = Some key -> key_Label key = sig_By s ->
  IncludesRole key (sig_Role s) = true ->
  base64.DecodeString (key_Key key) = Ok keyBytes -> length keyBytes = 32 ->
  base64.DecodeString (sig_Signature s) = Ok sigBytes ->
  verify keyBytes
    (list_ascii_of_string (generateCleartext i (sig_By s) (sig_Role s))) sigBytes
  = false ->
  checkSignature m s i = (Err ErrInvalidSignature, i).
Proof.
  intros H Hl Hr Hk Hlen Hs Hv. unfold checkSignature.
  rewrite H, Hr, Hl. cbn [negb].
  unfold bind, call, self, ed25519.Verify, ed25519.PublicKeySize.
  rewrite Hk, Hs, Hlen. cbn. now rewrite Hv.
Qed.

Lemma checkSignature_corrupt m s i key :
  m !! sig_By s = Some key ->
  (exists keyBytes, base64.DecodeString (key_Key key) = Ok keyBytes) ->
  checkSignature m s i = (Err CorruptInputError, i) ->
  base64.DecodeString (sig_Signature s) = Err CorruptInputError.
Proof.
  intros H [kb Hk]. unfold checkSignature. rewrite H.
  destruct (IncludesRole key (sig_Role s)); [|discriminate]. cbn [negb].
  unfold bind, call, self, ed25519.Verify. rewrite Hk.
  destruct (base64.DecodeString (sig_Signature s)) as [sb|e|msg];
    [|now intros [= ->]|discriminate].
  destruct (Nat.eqb _ _); [|discriminate].
  destruct (verify _ _ _); discriminate.
Qed.

(** With keys that all self-certify, the call is the second loop run on the
    map of the keys. *)
Lemma VerifySignatures_certified keys i :
  forallb selfCertifies keys = true ->
  VerifySignatures keys i
  = forRange (elems (inv_Signature i)) (checkSignature (indexKeys keys ∅)) i.
Proof.
  intros H. unfold VerifySignatures, bind. now rewrite (indexAll_ok keys ∅ i H).
Qed.

(** With a key that does not, the call ends at the first such key. *)
Lemma VerifySignatures_uncertified pre k post i
    (r : result (gmap string SignatureKey)) :
  forallb selfCertifies pre = true ->
  (forall m', r <> Ok m') -> (forall m' i', indexKey m' k i' = (r, i')) ->
  VerifySignatures (pre ++ k :: post) i
  = (match r with
     | Ok _ => Ok tt
     | Err e => Err e
     | Panic msg => Panic msg
     end, i).
Proof.
  intros Hpre Hr Hk. unfold VerifySignatures, bind.
  rewrite (indexAll_fails pre k post ∅ i r Hpre Hr Hk).
  destruct r as [m'|e|msg]; [destruct (Hr m' eq_refl)|reflexivity|reflexivity].
Qed.

Lemma VerifySignatures_preserves keys : preserves (VerifySignatures keys).
Proof.
  intros i. unfold VerifySignatures, bind.
  pose proof (indexAll_preserves keys ∅ i) as Hp.
  destruct (forRangeWith keys indexKey ∅ i) as [[m|e|msg] j]; cbn in Hp; subst j;
    try reflexivity.
  unfold self. apply forRange_preserves. intros s. apply checkSignature_preserves.
Qed.

End VerifySignaturesFacts.

(** ** [VerifySignatures]: the claims *)

Section VerifySignaturesClaims.

Context `{E : Ed25519}.

Implicit Types (k key : SignatureKey) (keys pre post rest : list SignatureKey).
Implicit Types (m : gmap string SignatureKey) (i : Invoice) (s : Signature).

Lemma forRange_err_inv {A : Type} (l : list A) (body : A -> M unit)
    (i i' : Invoice) (e : error) :
  (forall x, preserves (body x)) ->
  forRange l body i = (Err e, i') ->
  exists x, In x l /\ body x i = (Err e, i).
Proof.
  intros Hp. induction l as [|x l IH]; [discriminate|].
  cbn [forRange]. unfold bind. pose proof (Hp x i) as Hx.
  destruct (body x i) as [[[]|e'|msg] j] eqn:Hb; cbn in Hx; subst j.
  - intros H. destruct (IH H) as (y & Hy & Hrun). exists y. split; [now right|exact Hrun].
  - intros [= -> _]. exists x. split; [now left|exact Hb].
  - discriminate.
Qed.

Lemma indexAll_app pre post m i :
  forRangeWith (pre ++ post) indexKey m i
  = bind (forRangeWith pre indexKey m) (fun m' => forRangeWith post indexKey m') i.
Proof.
  revert m. induction pre as [|k pre IH]; intros m; cbn [forRangeWith List.app].
  - reflexivity.
  - unfold bind. destruct (indexKey m k i) as [[m'|e|msg] j] eqn:Hk; try reflexivity.
    pose proof (indexAll_preserves [k] m i) as Hp.
    cbn [forRangeWith] in Hp. unfold bind in Hp. rewrite Hk in Hp. cbn in Hp.
    subst j. rewrite IH. reflexivity.
Qed.

Lemma indexAll_fail_indep keys m m' i :
  forallb selfCertifies keys = false ->
  forRangeWith keys indexKey m i = forRangeWith keys indexKey m' i.
Proof.
  intros H. destruct (first_uncertified keys H) as (pre & k & post & -> & Hpre & Hk).
  destruct (indexKey_fails k Hk) as (r & Hr & Hrun).
  now rewrite !(indexAll_fails pre k post _ i r Hpre Hr Hrun).
Qed.

Lemma indexKeys_overwritten rest m k1 k2 :
  In k2 rest -> key_Label k2 = key_Label k1 ->
  indexKeys rest (<[key_Label k1 := k1]> m) = indexKeys rest m.
Proof.
  intros Hin Hl. apply map_eq. intros label. rewrite !indexKeys_lookup.
  destruct (lastWithLabel rest label) as [k|] eqn:Hlast; [reflexivity|].
  apply lookup_insert_ne. intros <-.
  exact (proj1 (lastWithLabel_None rest _) Hlast k2 Hin Hl).
Qed.

Lemma cleartext_frame i i' (author role : string) :
  inv_Bindle i' = inv_Bindle i -> inv_Parcel i' = inv_Parcel i ->
  generateCleartext i' author role = generateCleartext i author role.
Proof. intros Hb Hp. unfold generateCleartext. now rewrite Hb, Hp. Qed.

(** C8. A key that the second loop finds under the author of a record
    carries that author as its label, so the canonical text rebuilt from
    the label of the key is the one rebuilt from the record. *)
Theorem C8_matched_key_label keys i i' m s key :
  forRangeWith keys indexKey ∅ i = (Ok m, i') ->
  m !! sig_By s = Some key ->
  key_Label key = sig_By s
  /\ generateCleartext i (key_Label key) (sig_Role s)
     = generateCleartext i (sig_By s) (sig_Role s).
Proof.
  intros Hrun Hlook. apply indexAll_ok_inv in Hrun as (_ & -> & _).
  apply indexKeys_labels in Hlook as [_ Hl]. now rewrite Hl.
Qed.

(** C9. [VerifySignatures] leaves the invoice as it was, whatever it
    returns, so calling it again on the invoice gives the same result. *)
Theorem C9_verify_reads_only keys i :
  snd (VerifySignatures keys i) = i
  /\ VerifySignatures keys (snd (VerifySignatures keys i)) = VerifySignatures keys i.
Proof.
  pose proof (VerifySignatures_preserves keys i) as H. split; [exact H|].
  now rewrite H.
Qed.

Lemma record_outcome keys i s :
  forallb selfCertifies keys = true ->
  checkSignature (indexKeys keys ∅) s i = (Ok tt, i)
  <-> exists k, lastWithLabel keys (sig_By s) = Some k /\ recordVerifies i k s = true.
Proof.
  intros Hall. split.
  - intros H. apply checkSignature_ok_inv in H as (key & Hlook & Hv).
    exists key. pose proof (indexKeys_labels keys _ _ Hlook) as [_ Hl].
    rewrite indexKeys_lookup in Hlook.
    destruct (lastWithLabel keys (sig_By s)) as [k'|];
      [|now rewrite lookup_empty in Hlook].
    injection Hlook as ->. split; [reflexivity|exact (Hv Hl)].
  - intros (k & Hlast & Hv).
    apply (checkSignature_verified _ s i k).
    + now rewrite indexKeys_lookup, Hlast.
    + now apply lastWithLabel_Some in Hlast.
    + exact Hv.
Qed.

Lemma VerifySignatures_ok_iff keys i :
  VerifySignatures keys i = (Ok tt, i)
  <-> forallb selfCertifies keys = true
      /\ forall s, In s (elems (inv_Signature i)) ->
           exists k, lastWithLabel keys (sig_By s) = Some k
                     /\ recordVerifies i k s = true.
Proof.
  split.
  - intros Hrun. unfold VerifySignatures, bind in Hrun.
    destruct (forRangeWith keys indexKey ∅ i) as [[m|e|msg] j] eqn:H1;
      try discriminate.
    apply indexAll_ok_inv in H1 as (Hall & -> & ->). split; [exact Hall|].
    unfold self in Hrun. intros s Hs. apply (record_outcome keys i s Hall).
    exact (forRange_ok_inv _ _ i i (checkSignature_preserves _) Hrun s Hs).
  - intros [Hall Hsigs]. rewrite (VerifySignatures_certified keys i Hall).
    apply forRange_all_ok. intros s Hs. apply (record_outcome keys i s Hall).
    now apply Hsigs.
Qed.

(** C3, amended. [VerifySignatures] returns [nil] exactly when every
    supplied key self-certifies and every signature of the invoice verifies
    against the last supplied key whose label is the author of the record.
    With such keys, the first record that does not verify decides the
    error: [ErrMissingSignatureKey] when no supplied key has the author as
    its label, [ErrSignatureKeyRoleMismatch] when the key found lacks the
    role, [ErrInvalidSignature] when the signature does not verify. *)
Theorem C3_verify_all_or_nothing keys i :
  (VerifySignatures keys i = (Ok tt, i)
   <-> forallb selfCertifies keys = true
       /\ forall s, In s (elems (inv_Signature i)) ->
            exists k, lastWithLabel keys (sig_By s) = Some k
                      /\ recordVerifies i k s = true)
  /\ (forall front s back,
        forallb selfCertifies keys = true ->
        elems (inv_Signature i) = front ++ s :: back ->
        (forall s', In s' front ->
           exists k, lastWithLabel keys (sig_By s') = Some k
                     /\ recordVerifies i k s' = true) ->
        ((forall k, In k keys -> key_Label k <> sig_By s) ->
         VerifySignatures keys i = (Err ErrMissingSignatureKey, i))
        /\ (forall k, lastWithLabel keys (sig_By s) = Some k ->
              IncludesRole k (sig_Role s) = false ->
              VerifySignatures keys i = (Err ErrSignatureKeyRoleMismatch, i))
        /\ (forall k keyBytes sigBytes,
              lastWithLabel keys (sig_By s) = Some k ->
              IncludesRole k (sig_Role s) = true ->
              base64.DecodeString (key_Key k) = Ok keyBytes ->
              base64.DecodeString (sig_Signature s) = Ok sigBytes ->
              verify keyBytes
                (list_ascii_of_string (generateCleartext i (sig_By s) (sig_Role s)))
                sigBytes = false ->
              VerifySignatures keys i = (Err ErrInvalidSignature, i))).
Proof.
  split; [apply VerifySignatures_ok_iff|].
  - intros front s back Hall Hsplit Hfront.
    rewrite (VerifySignatures_certified keys i Hall), Hsplit.
    assert (Hpre : forall y, In y front ->
              checkSignature (indexKeys keys ∅) y i = (Ok tt, i)).
    { intros y Hy. apply (record_outcome keys i y Hall). now apply Hfront. }
    repeat split.
    + intros Hnone. apply forRange_first_failure; [exact Hpre| |discriminate].
      apply checkSignature_missing. rewrite indexKeys_lookup.
      rewrite (proj2 (lastWithLabel_None keys (sig_By s)) Hnone).
      apply lookup_empty.
    + intros k Hlast Hrole. apply forRange_first_failure; [exact Hpre| |discriminate].
      apply (checkSignature_mismatch _ s i k); [|exact Hrole].
      now rewrite indexKeys_lookup, Hlast.
    + intros k kb sb Hlast Hrole Hk Hs Hv.
      apply forRange_first_failure; [exact Hpre| |discriminate].
      pose proof (lastWithLabel_Some keys _ k Hlast) as [Hin Hl].
      apply (checkSignature_invalid _ s i k kb sb); try assumption.
      * now rewrite indexKeys_lookup, Hlast.
      * rewrite forallb_forall in Hall. specialize (Hall k Hin).
        unfold selfCertifies in Hall. rewrite Hk in Hall.
        destruct (base64.DecodeString (key_LabelSignature k)); try discriminate.
        apply andb_prop in Hall as [Hlen _]. now apply Nat.eqb_eq in Hlen.
Qed.

(** C4, amended. When a supplied key decodes to a well-formed key whose
    label signature does not verify, and the keys before it in the list are
    well formed, the call fails with [ErrInvalidSignatureKey], whatever
    the other keys and the signatures of the invoice are. In every case a
    key that does not self-certify makes the call fail. When the keys all
    self-certify, the map built by the first loop holds, under a label, the
    last key of the list with this label, and an earlier key whose label
    appears again later has no effect on the result. *)
Theorem C4_bad_key_aborts_last_key_wins :
  (forall pre k post i,
      forallb wellFormedKey pre = true -> wellFormedKey k = true ->
      selfCertifies k = false ->
      VerifySignatures (pre ++ k :: post) i = (Err ErrInvalidSignatureKey, i))
  /\ (forall keys i,
        forallb selfCertifies keys = false ->
        fst (VerifySignatures keys i) <> Ok tt)
  /\ (forall keys i label k,
        forallb selfCertifies keys = true ->
        lastWithLabel keys label = Some k ->
        exists m, forRangeWith keys indexKey ∅ i = (Ok m, i) /\ m !! label = Some k)
  /\ (forall pre k1 rest k2 i,
        selfCertifies k1 = true -> In k2 rest -> key_Label k2 = key_Label k1 ->
        VerifySignatures (pre ++ k1 :: rest) i = VerifySignatures (pre ++ rest) i).
Proof.
  repeat split.
  - intros pre k post i Hpre Hk Hbad.
    assert (Hfirst : forallb selfCertifies (pre ++ [k]) = false).
    { rewrite forallb_app. cbn [forallb]. rewrite Hbad.
      now rewrite andb_false_r. }
    destruct (first_uncertified _ Hfirst) as (p & k' & q & Hsplit & Hp & Hk').
    assert (Hwf : wellFormedKey k' = true).
    { assert (Hin : In k' (pre ++ [k])) by (rewrite Hsplit; apply in_elt).
      apply in_app_or in Hin as [Hin|[<-|[]]]; [|exact Hk].
      rewrite forallb_forall in Hpre. now apply Hpre. }
    replace (pre ++ k :: post) with (p ++ k' :: (q ++ post)).
    + rewrite (VerifySignatures_uncertified p k' (q ++ post) i
                 (Err ErrInvalidSignatureKey) Hp); [reflexivity|discriminate|].
      intros m' i'. now apply indexKey_invalid.
    + change (k :: post) with ([k] ++ post).
      rewrite app_assoc, Hsplit, <- app_assoc. reflexivity.
  - intros keys i Hbad Hok.
    destruct (first_uncertified keys Hbad) as (p & k & q & -> & Hp & Hk).
    destruct (indexKey_fails k Hk) as (r & Hr & Hrun).
    rewrite (VerifySignatures_uncertified p k q i r Hp Hr Hrun) in Hok.
    destruct r as [m'|e|msg]; [destruct (Hr m' eq_refl)|discriminate|discriminate].
  - intros keys i label k Hall Hlast. exists (indexKeys keys ∅).
    split; [now apply indexAll_ok|]. now rewrite indexKeys_lookup, Hlast.
  - intros pre k1 rest k2 i Hk1 Hin Hl.
    unfold VerifySignatures. unfold bind at 1 3. rewrite !indexAll_app.
    unfold bind at 1 3.
    destruct (forRangeWith pre indexKey ∅ i) as [[m0|e|msg] j] eqn:Hpre;
      try reflexivity.
    apply indexAll_ok_inv in Hpre as (_ & _ & ->).
    cbn [forRangeWith]. unfold bind at 1.
    rewrite (indexKey_selfCertifies m0 k1 i Hk1).
    destruct (forallb selfCertifies rest) eqn:Hrest.
    + rewrite !(indexAll_ok rest _ i Hrest).
      now rewrite (indexKeys_overwritten rest m0 k1 k2 Hin Hl).
    + now rewrite (indexAll_fail_indep rest _ m0 i Hrest).
Qed.


Lemma checkSignature_corrupt_inv m s i i' :
  checkSignature m s i = (Err CorruptInputError, i') ->
  (exists key, m !! sig_By s = Some key
               /\ base64.DecodeString (key_Key key) = Err CorruptInputError)
  \/ base64.DecodeString (sig_Signature s) = Err CorruptInputError.
Proof.
  unfold checkSignature.
  destruct (m !! sig_By s) as [key|]; [|discriminate].
  destruct (IncludesRole key (sig_Role s)); [|discriminate]. cbn [negb].
  unfold bind, call, self, ed25519.Verify.
  destruct (base64.DecodeString (key_Key key)) as [kb|e|msg] eqn:Hkey;
    [|intros [= -> _]; left; exists key; split; [reflexivity|exact Hkey]
     |discriminate].
  destruct (base64.DecodeString (sig_Signature s)) as [sb|e|msg];
    [|intros [= -> _]; now right|discriminate].
  destruct (Nat.eqb _ _); [|discriminate].
  destruct (verify _ _ _); discriminate.
Qed.

(** C10. Key material of the wrong length makes the calls panic: past its
    three checks [GenerateSignature] panics in [ed25519.Sign] when the
    private key does not have 64 bytes, and [VerifySignatures] panics in
    [ed25519.Verify] at the first key that does not self-certify when both
    its fields decode and its key does not have 32 bytes. A decoding error
    is returned only for a field that is not base64. *)
Theorem C10_wrong_length_panics :
  (forall (now : Z) (author role : string) k (privKey : bytes) i,
      In role roleVocabulary -> IncludesRole k role = true ->
      In author (Authors (inv_Bindle i)) ->
      length privKey <> 64 ->
      GenerateSignature now author role k privKey i
      = (Panic "ed25519: bad private key length", i))
  /\ (forall pre k post i (keyBytes labelSigBytes : bytes),
        forallb selfCertifies pre = true ->
        base64.DecodeString (key_Key k) = Ok keyBytes ->
        base64.DecodeString (key_LabelSignature k) = Ok labelSigBytes ->
        length keyBytes <> 32 ->
        VerifySignatures (pre ++ k :: post) i
        = (Panic "ed25519: bad public key length", i))
  /\ (forall (now : Z) (author role : string) k (privKey : bytes) i i',
        GenerateSignature now author role k privKey i = (Err CorruptInputError, i') ->
        base64.DecodeString (key_Key k) = Err CorruptInputError)
  /\ (forall keys i i',
        VerifySignatures keys i = (Err CorruptInputError, i') ->
        (exists k, In k keys
           /\ (base64.DecodeString (key_Key k) = Err CorruptInputError
               \/ base64.DecodeString (key_LabelSignature k) = Err CorruptInputError))
        \/ (exists s, In s (elems (inv_Signature i))
              /\ base64.DecodeString (sig_Signature s) = Err CorruptInputError)).
Proof.
  repeat split.
  - intros now author role k privKey i H Hk Ha Hlen.
    rewrite (GenerateSignature_signs _ _ _ _ _ _ H Hk Ha).
    unfold ed25519.Sign, ed25519.PrivateKeySize.
    apply Nat.eqb_neq in Hlen. now rewrite Hlen.
  - intros pre k post i kb lb Hpre Hk Hl Hlen.
    rewrite (VerifySignatures_uncertified pre k post i
               (Panic "ed25519: bad public key length") Hpre);
      [reflexivity|discriminate|].
    intros m' i'. exact (indexKey_bad_length k m' i' kb lb Hk Hl Hlen).
  - intros now author role k privKey i i'.
    destruct (GenerateSignature_cases now author role k privKey i)
      as [H|[[H Hk]|[(H & Hk & Ha)|(H & Hk & Ha)]]].
    + now rewrite GenerateSignature_invalid_role.
    + now rewrite GenerateSignature_role_mismatch.
    + now rewrite GenerateSignature_no_author.
    + rewrite (GenerateSignature_signs _ _ _ _ _ _ H Hk Ha).
      unfold ed25519.Sign. destruct (Nat.eqb _ _); [|discriminate].
      destruct (base64.DecodeString (key_Key k)) as [pubKey|e|msg];
        [discriminate|now intros [= -> _]|discriminate].
  - intros keys i i' Hrun.
    destruct (forallb selfCertifies keys) eqn:Hall.
    + right. rewrite (VerifySignatures_certified keys i Hall) in Hrun.
      apply forRange_err_inv in Hrun as (s & Hs & Hrun);
        [|intros x; apply checkSignature_preserves].
      apply checkSignature_corrupt_inv in Hrun as [(key & Hlook & Hkey)|Hsig].
      * exfalso. apply indexKeys_labels in Hlook as [Hin _].
        rewrite forallb_forall in Hall. specialize (Hall key Hin).
        unfold selfCertifies in Hall. now rewrite Hkey in Hall.
      * now exists s.
    + left. destruct (first_uncertified keys Hall) as (p & k & q & -> & Hp & Hk).
      destruct (indexKey_fails k Hk) as (r & Hr & Hk').
      rewrite (VerifySignatures_uncertified p k q i r Hp Hr Hk') in Hrun.
      exists k. split; [apply in_elt|].
      apply (indexKey_corrupt k ∅ i). rewrite Hk'.
      destruct r as [m'|e|msg]; [destruct (Hr m' eq_refl)| |discriminate].
      injection Hrun as -> _. reflexivity.
Qed.

(** C2, amended. Let the role be in the vocabulary, the key include the
    role, the author be on the invoice, and the private key match the
    public key that the key decodes to. If moreover the author is the
    label of the key, and the invoice verifies against the key before the
    call (the key self-certifies, and the signatures already stored, if
    any, are valid signatures by this key), then [GenerateSignature]
    returns [nil] and [VerifySignatures] with this key returns [nil] on
    the signed invoice. *)
Theorem C2_sign_then_verify (now : Z) (author role : string) key
    (privKey pubKey : bytes) i :
  In role roleVocabulary -> IncludesRole key role = true ->
  In author (Authors (inv_Bindle i)) ->
  base64.DecodeString (key_Key key) = Ok pubKey -> KeyPair privKey pubKey ->
  author = key_Label key ->
  VerifySignatures [key] i = (Ok tt, i) ->
  exists i',
    GenerateSignature now author role key privKey i = (Ok tt, i')
    /\ VerifySignatures [key] i' = (Ok tt, i').
Proof.
  intros H Hk Ha Hpub (Hpriv & Hlen & Hpair) Hlabel Hbefore.
  rewrite (GenerateSignature_signs _ _ _ _ _ _ H Hk Ha).
  unfold ed25519.Sign, ed25519.PrivateKeySize. rewrite Hpriv, Hpub. cbn [Nat.eqb].
  eexists. split; [reflexivity|].
  apply VerifySignatures_ok_iff in Hbefore as [Hcert Hold].
  apply VerifySignatures_ok_iff. split; [exact Hcert|].
  cbn [inv_Signature elems]. intros s Hs. apply in_app_or in Hs as [Hs|[<-|[]]].
  - destruct (Hold s Hs) as (k & Hlast & Hv). exists k. split; [exact Hlast|].
    unfold recordVerifies in *. cbn in *.
    now rewrite (cleartext_frame i _ (sig_By s) (sig_Role s)) by reflexivity.
  - exists key. split.
    + unfold lastWithLabel. cbn. rewrite Hlabel. now rewrite String.eqb_refl.
    + unfold recordVerifies. cbn [sig_By sig_Role sig_Signature].
      rewrite Hk, Hpub, DecodeString_EncodeToString, Hlen. cbn.
      rewrite (cleartext_frame i _ author role) by reflexivity.
      apply Hpair.
Qed.

(** The three counterexamples do not depend on the signature scheme. For
    every scheme: a first signature made with a key whose label is not the
    author is not found again; of two keys with one label only the later
    is asked; and a key that is not base64 ends the call before any later
    key is looked at. *)
Lemma sign_then_verify_other_label (now : Z) (author role : string) key
    (privKey : bytes) i i' :
  GenerateSignature now author role key privKey i = (Ok tt, i') ->
  selfCertifies key = true -> elems (inv_Signature i) = [] ->
  author <> key_Label key ->
  VerifySignatures [key] i' = (Err ErrMissingSignatureKey, i').
Proof.
  intros Hrun Hcert Hnone Hne.
  destruct (GenerateSignature_cases now author role key privKey i)
    as [H|[[H Hk]|[(H & Hk & Ha)|(H & Hk & Ha)]]].
  - now rewrite GenerateSignature_invalid_role in Hrun.
  - now rewrite GenerateSignature_role_mismatch in Hrun.
  - now rewrite GenerateSignature_no_author in Hrun.
  - rewrite (GenerateSignature_signs _ _ _ _ _ _ H Hk Ha) in Hrun.
    destruct (ed25519.Sign _ _) as [sig|e|msg]; try discriminate.
    destruct (base64.DecodeString (key_Key key)) as [pubKey|e|msg];
      try discriminate.
    injection Hrun as <-. rewrite Hnone.
    rewrite VerifySignatures_certified by (cbn [forallb]; now rewrite Hcert).
    cbn [inv_Signature elems List.app forRange]. unfold bind.
    rewrite checkSignature_missing; [reflexivity|].
    rewrite indexKeys_lookup. unfold lastWithLabel. cbn.
    destruct (String.eqb_spec (key_Label key) author) as [Heq|_];
      [now destruct Hne|apply lookup_empty].
Qed.

Lemma later_key_decides k1 k2 i s :
  key_Label k2 = sig_By s -> In s (elems (inv_Signature i)) ->
  recordVerifies i k2 s = false ->
  VerifySignatures [k1; k2] i <> (Ok tt, i).
Proof.
  intros Hl Hs Hbad Hrun. apply VerifySignatures_ok_iff in Hrun as [_ Hsigs].
  destruct (Hsigs s Hs) as (k & Hlast & Hv).
  unfold lastWithLabel in Hlast. cbn in Hlast.
  rewrite Hl, String.eqb_refl in Hlast. injection Hlast as <-. congruence.
Qed.

Lemma corrupt_key_first k rest i (e : error) :
  base64.DecodeString (key_Key k) = Err e ->
  VerifySignatures (k :: rest) i = (Err e, i).
Proof.
  intros Hk. unfold VerifySignatures. cbn [forRangeWith].
  unfold bind, indexKey, call. now rewrite Hk.
Qed.

End VerifySignaturesClaims.

(** ** The code on the test data *)

Lemma Model_KeyPair : KeyPair (E := Model.scheme) Fixture.privA Fixture.pubA.
Proof.
  split; [reflexivity|]. split; [reflexivity|].
  intros msg. cbn [verify sign Model.scheme].
  change (skipn 32 Fixture.privA) with Fixture.pubA.
  now apply bool_decide_eq_true.
Qed.

(** C2, as stated, fails. With a self-certified key whose label is not the
    name of the author, signing succeeds and verification with the same key
    reports a missing key; and on an invoice that already carries the
    signature of another party, signing succeeds and verification with the
    key of the signer alone reports a missing key for the older record. *)
Lemma C2_counterexample :
  In "creator"%string roleVocabulary
  /\ IncludesRole Fixture.keyRelease "creator" = true
  /\ In Fixture.matt (Authors (inv_Bindle Fixture.invoice))
  /\ base64.DecodeString (key_Key Fixture.keyRelease) = Ok Fixture.pubA
  /\ KeyPair (E := Model.scheme) Fixture.privA Fixture.pubA
  /\ selfCertifies (E := Model.scheme) Fixture.keyRelease = true
  /\ GenerateSignature (E := Model.scheme) Fixture.clock Fixture.matt "creator"
       Fixture.keyRelease Fixture.privA Fixture.invoice
     = (Ok tt, Fixture.signedInvoice)
  /\ VerifySignatures (E := Model.scheme) [Fixture.keyRelease] Fixture.signedInvoice
     = (Err ErrMissingSignatureKey, Fixture.signedInvoice)
  /\ IncludesRole Fixture.keyA "creator" = true
  /\ selfCertifies (E := Model.scheme) Fixture.keyA = true
  /\ GenerateSignature (E := Model.scheme) Fixture.clock Fixture.matt "creator"
       Fixture.keyA Fixture.privA Fixture.approvedInvoice
     = (Ok tt, Fixture.countersignedInvoice)
  /\ VerifySignatures (E := Model.scheme) [Fixture.keyA] Fixture.countersignedInvoice
     = (Err ErrMissingSignatureKey, Fixture.countersignedInvoice).
Proof.
  split; [now left|]. split; [reflexivity|]. split; [now left|].
  split; [vm_compute; reflexivity|]. split; [exact Model_KeyPair|].
  repeat split; vm_compute; reflexivity.
Qed.

Lemma C2_sign_then_verify_witness :
  exists i',
    GenerateSignature (E := Model.scheme) Fixture.clock Fixture.matt "creator"
      Fixture.keyA Fixture.privA Fixture.invoice = (Ok tt, i')
    /\ VerifySignatures (E := Model.scheme) [Fixture.keyA] i' = (Ok tt, i').
Proof.
  apply (C2_sign_then_verify (E := Model.scheme) Fixture.clock Fixture.matt
           "creator" Fixture.keyA Fixture.privA Fixture.pubA Fixture.invoice).
  - now left.
  - reflexivity.
  - now left.
  - vm_compute; reflexivity.
  - exact Model_KeyPair.
  - reflexivity.
  - vm_compute; reflexivity.
Defined.

(** C3, as stated, fails. Two keys with the label of the author both
    self-certify, and the signature of the invoice verifies against the
    first of them, which has the role; the call fails all the same, because
    the signature is checked against the second. *)
Lemma C3_counterexample :
  (forallb (selfCertifies (E := Model.scheme)) [Fixture.keyA; Fixture.keyB] = true
   /\ forall s, In s (elems (inv_Signature Fixture.signedInvoice)) ->
        exists k, In k [Fixture.keyA; Fixture.keyB]
                  /\ key_Label k = sig_By s
                  /\ IncludesRole k (sig_Role s) = true
                  /\ recordVerifies (E := Model.scheme) Fixture.signedInvoice k s
                     = true)
  /\ VerifySignatures (E := Model.scheme) [Fixture.keyA; Fixture.keyB]
       Fixture.signedInvoice
     = (Err ErrInvalidSignature, Fixture.signedInvoice).
Proof.
  split; [split|]; [vm_compute; reflexivity| |vm_compute; reflexivity].
  intros s [<-|[]]. exists Fixture.keyA.
  split; [now left|]. repeat split; vm_compute; reflexivity.
Qed.

Lemma C3_verify_all_or_nothing_witness :
  VerifySignatures (E := Model.scheme) [Fixture.keyA] Fixture.signedInvoice
  = (Ok tt, Fixture.signedInvoice)
  /\ VerifySignatures (E := Model.scheme) [Fixture.keyA] Fixture.approvedInvoice
     = (Err ErrMissingSignatureKey, Fixture.approvedInvoice)
  /\ VerifySignatures (E := Model.scheme) [Fixture.keyA] Fixture.relabelledInvoice
     = (Err ErrSignatureKeyRoleMismatch, Fixture.relabelledInvoice)
  /\ VerifySignatures (E := Model.scheme) [Fixture.keyB] Fixture.signedInvoice
     = (Err ErrInvalidSignature, Fixture.signedInvoice).
Proof.
  split; [|split; [|split]].
  - apply (proj1 (C3_verify_all_or_nothing (E := Model.scheme) [Fixture.keyA]
                    Fixture.signedInvoice)).
    split; [vm_compute; reflexivity|].
    intros s [<-|[]]. exists Fixture.keyA. split; vm_compute; reflexivity.
  - apply (proj2 (C3_verify_all_or_nothing (E := Model.scheme) [Fixture.keyA]
                    Fixture.approvedInvoice) [] Fixture.approverSignature []);
      [vm_compute; reflexivity|reflexivity|intros s' []|].
    intros k [<-|[]]. discriminate.
  - apply (proj2 (C3_verify_all_or_nothing (E := Model.scheme) [Fixture.keyA]
                    Fixture.relabelledInvoice) [] _ []
             ltac:(vm_compute; reflexivity) eq_refl ltac:(intros s' []))
      with (k := Fixture.keyA); vm_compute; reflexivity.
  - apply (proj2 (C3_verify_all_or_nothing (E := Model.scheme) [Fixture.keyB]
                    Fixture.signedInvoice) [] _ []
             ltac:(vm_compute; reflexivity) eq_refl ltac:(intros s' []))
      with (k := Fixture.keyB) (keyBytes := Fixture.pubB)
           (sigBytes := sign (Ed25519 := Model.scheme) Fixture.privA
                          (list_ascii_of_string
                             (generateCleartext Fixture.invoice Fixture.matt "creator")));
      vm_compute; reflexivity.
Defined.

(** C4, as stated, fails. The label signature of the second key does not
    verify against its own key, but the call ends at the first key, whose
    key is not base64, and returns the decoding error. *)
Lemma C4_counterexample :
  In Fixture.keyBadCert [Fixture.keyCorrupt; Fixture.keyBadCert]
  /\ wellFormedKey Fixture.keyBadCert = true
  /\ selfCertifies (E := Model.scheme) Fixture.keyBadCert = false
  /\ VerifySignatures (E := Model.scheme) [Fixture.keyCorrupt; Fixture.keyBadCert]
       Fixture.invoice
     = (Err CorruptInputError, Fixture.invoice)
  /\ fst (VerifySignatures (E := Model.scheme)
            [Fixture.keyCorrupt; Fixture.keyBadCert] Fixture.invoice)
     <> Err ErrInvalidSignatureKey.
Proof.
  split; [right; now left|].
  repeat split; try (vm_compute; reflexivity). vm_compute. discriminate.
Qed.

Lemma C4_bad_key_aborts_last_key_wins_witness :
  VerifySignatures (E := Model.scheme) [Fixture.keyA; Fixture.keyBadCert; Fixture.keyB]
    Fixture.signedInvoice
  = (Err ErrInvalidSignatureKey, Fixture.signedInvoice)
  /\ fst (VerifySignatures (E := Model.scheme) [Fixture.keyCorrupt] Fixture.invoice)
     <> Ok tt
  /\ (exists m, forRangeWith [Fixture.keyA; Fixture.keyB]
                  (indexKey (E := Model.scheme)) ∅ Fixture.signedInvoice
                = (Ok m, Fixture.signedInvoice)
                /\ m !! Fixture.matt = Some Fixture.keyB)
  /\ VerifySignatures (E := Model.scheme) [Fixture.keyA; Fixture.keyB]
       Fixture.signedInvoice
     = VerifySignatures (E := Model.scheme) [Fixture.keyB] Fixture.signedInvoice.
Proof.
  destruct (C4_bad_key_aborts_last_key_wins (E := Model.scheme))
    as (Hbad & Hnever & Hlast & Hdup).
  split; [|split; [|split]].
  - apply (Hbad [Fixture.keyA] Fixture.keyBadCert [Fixture.keyB]);
      vm_compute; reflexivity.
  - apply Hnever. vm_compute; reflexivity.
  - apply Hlast; vm_compute; reflexivity.
  - apply (Hdup [] Fixture.keyA [Fixture.keyB] Fixture.keyB);
      [vm_compute; reflexivity|now left|reflexivity].
Defined.

Lemma C5_precondition_order_witness :
  GenerateSignature (E := Model.scheme) Fixture.clock Fixture.matt "owner"
    Fixture.keyA Fixture.privA Fixture.invoice
  = (Err ErrInvalidRole, Fixture.invoice)
  /\ GenerateSignature (E := Model.scheme) Fixture.clock Fixture.matt "host"
       Fixture.keyA Fixture.privA Fixture.invoice
     = (Err ErrSignatureKeyRoleMismatch, Fixture.invoice)
  /\ GenerateSignature (E := Model.scheme) Fixture.clock "Nobody" "creator"
       Fixture.keyA Fixture.privA Fixture.invoice
     = (Err ErrAuthorNotExist, Fixture.invoice)
  /\ fst (GenerateSignature (E := Model.scheme) Fixture.clock Fixture.matt "creator"
            Fixture.keyA Fixture.privA Fixture.invoice)
     = Ok tt.
Proof.
  split; [|split; [|split]].
  - apply (proj1 (C5_precondition_order (E := Model.scheme) Fixture.clock
                    Fixture.matt "owner" Fixture.keyA Fixture.privA Fixture.invoice)).
    intros H. cbn in H. intuition discriminate.
  - apply (proj1 (proj2 (C5_precondition_order (E := Model.scheme) Fixture.clock
                    Fixture.matt "host" Fixture.keyA Fixture.privA Fixture.invoice)));
      [cbn; tauto|reflexivity].
  - apply (proj1 (proj2 (proj2 (C5_precondition_order (E := Model.scheme)
                    Fixture.clock "Nobody" "creator" Fixture.keyA Fixture.privA
                    Fixture.invoice))));
      [cbn; tauto|reflexivity|].
    intros H. cbn in H. intuition discriminate.
  - destruct (proj2 (proj2 (proj2 (C5_precondition_order (E := Model.scheme)
                    Fixture.clock Fixture.matt "creator" Fixture.keyA Fixture.privA
                    Fixture.invoice))))
      as (_ & _ & _ & Heq); [cbn; tauto|reflexivity|cbn; tauto|].
    rewrite Heq. vm_compute. reflexivity.
Defined.

Lemma C8_matched_key_label_witness :
  key_Label Fixture.keyA = sig_By Fixture.creatorSignature
  /\ generateCleartext Fixture.signedInvoice (key_Label Fixture.keyA)
       (sig_Role Fixture.creatorSignature)
     = generateCleartext Fixture.signedInvoice (sig_By Fixture.creatorSignature)
         (sig_Role Fixture.creatorSignature).
Proof.
  apply (C8_matched_key_label (E := Model.scheme) [Fixture.keyA]
           Fixture.signedInvoice Fixture.signedInvoice
           (indexKeys [Fixture.keyA] ∅) Fixture.creatorSignature Fixture.keyA).
  - apply indexAll_ok. vm_compute; reflexivity.
  - apply lookup_insert_eq.
Defined.

Lemma C10_wrong_length_panics_witness :
  GenerateSignature (E := Model.scheme) Fixture.clock Fixture.matt "creator"
    Fixture.keyA Fixture.pubA Fixture.invoice
  = (Panic "ed25519: bad private key length", Fixture.invoice)
  /\ VerifySignatures (E := Model.scheme) [Fixture.keyA; Fixture.keyShort]
       Fixture.signedInvoice
     = (Panic "ed25519: bad public key length", Fixture.signedInvoice)
  /\ base64.DecodeString (key_Key Fixture.keyCorrupt) = Err CorruptInputError
  /\ ((exists k, In k [Fixture.keyCorrupt]
          /\ (base64.DecodeString (key_Key k) = Err CorruptInputError
              \/ base64.DecodeString (key_LabelSignature k) = Err CorruptInputError))
      \/ (exists s, In s (elems (inv_Signature Fixture.invoice))
            /\ base64.DecodeString (sig_Signature s) = Err CorruptInputError)).
Proof.
  destruct (C10_wrong_length_panics (E := Model.scheme))
    as (Hsign & Hverify & Hgen & Hver).
  split; [|split; [|split]].
  - apply Hsign; [cbn; tauto|reflexivity|cbn; tauto|].
    vm_compute. discriminate.
  - apply (Hverify [Fixture.keyA] Fixture.keyShort [] Fixture.signedInvoice
             ["000"%char; "000"%char; "000"%char]
             ["000"%char; "000"%char; "000"%char]);
      try (vm_compute; reflexivity).
    vm_compute. discriminate.
  - apply (Hgen Fixture.clock Fixture.matt "approver"%string Fixture.keyCorrupt
             Fixture.privA Fixture.invoice Fixture.invoice).
    vm_compute; reflexivity.
  - apply (Hver [Fixture.keyCorrupt] Fixture.invoice Fixture.invoice).
    vm_compute; reflexivity.
Defined.

(** * Further properties of the code *)

(** ** Helper facts *)


Lemma run_fst {A : Type} (m : M A) (i : Invoice) :
  preserves m -> m i = (fst (m i), i).
Proof. intros H. specialize (H i). destruct (m i) as [r j]. cbn in *. now subst. Qed.


Lemma forRange_content {A B : Type} (l1 : list A) (l2 : list B)
    (body1 : A -> M unit) (body2 : B -> M unit) (i1 i2 : Invoice) :
  (forall x, preserves (body1 x)) -> (forall y, preserves (body2 y)) ->
  Forall2 (fun x y => fst (body1 x i1) = fst (body2 y i2)) l1 l2 ->
  fst (forRange l1 body1 i1) = fst (forRange l2 body2 i2).
Proof.
  intros H1 H2 Hall. induction Hall as [|x y l1 l2 Hxy Hall IH]; [reflexivity|].
  cbn [forRange]. unfold bind.
  rewrite (run_fst (body1 x) i1 (H1 x)), (run_fst (body2 y) i2 (H2 y)), Hxy.
  destruct (fst (body2 y i2)) as [[]|e|msg]; [exact IH|reflexivity|reflexivity].
Qed.

Lemma map_eq_Forall2 {A B C : Type} (f : A -> C) (g : B -> C)
    (l1 : list A) (l2 : list B) :
  map f l1 = map g l2 -> Forall2 (fun x y => f x = g y) l1 l2.
Proof.
  revert l2. induction l1 as [|x l1 IH]; intros [|y l2] H; try discriminate.
  - constructor.
  - injection H as Hxy H. constructor; [exact Hxy|now apply IH].
Qed.

Lemma cleartext_content (i1 i2 : Invoice) (author role : string) :
  Name (inv_Bindle i1) = Name (inv_Bindle i2) ->
  Version (inv_Bindle i1) = Version (inv_Bindle i2) ->
  parcelDigests i1 = parcelDigests i2 ->
  generateCleartext i1 author role = generateCleartext i2 author role.
Proof.
  intros Hn Hv Hd. rewrite !generateCleartext_fields. unfold cleartextFields.
  now rewrite Hn, Hv, Hd.
Qed.

Section MoreFacts.

Context `{E : Ed25519}.

Implicit Types (k key : SignatureKey) (keys pre post rest : list SignatureKey).
Implicit Types (m : gmap string SignatureKey) (i : Invoice) (s : Signature).
Implicit Types (now : Z) (author role : string) (privKey pubKey : bytes).

Lemma checkSignature_content m s1 s2 i1 i2 :
  sig_By s1 = sig_By s2 -> sig_Role s1 = sig_Role s2 ->
  sig_Signature s1 = sig_Signature s2 ->
  (forall author role,
     generateCleartext i1 author role = generateCleartext i2 author role) ->
  fst (checkSignature m s1 i1) = fst (checkSignature m s2 i2).
Proof.
  intros Hby Hrole Hsig Hct. unfold checkSignature. rewrite Hby, Hrole, Hsig.
  destruct (m !! sig_By s2) as [key|]; [|reflexivity].
  destruct (IncludesRole key (sig_Role s2)); [|reflexivity]. cbn [negb].
  unfold bind, call, self.
  destruct (base64.DecodeString (key_Key key)); try reflexivity.
  destruct (base64.DecodeString (sig_Signature s2)); try reflexivity.
  rewrite Hct. destruct (ed25519.Verify _ _ _) as [[]|e|msg]; reflexivity.
Qed.

Lemma VerifySignatures_content keys i1 i2 :
  Name (inv_Bindle i1) = Name (inv_Bindle i2) ->
  Version (inv_Bindle i1) = Version (inv_Bindle i2) ->
  parcelDigests i1 = parcelDigests i2 ->
  map (fun s => (sig_By s, sig_Role s, sig_Signature s)) (elems (inv_Signature i1))
  = map (fun s => (sig_By s, sig_Role s, sig_Signature s)) (elems (inv_Signature i2)) ->
  fst (VerifySignatures keys i1) = fst (VerifySignatures keys i2).
Proof.
  intros Hn Hv Hd Hs.
  destruct (forallb selfCertifies keys) eqn:Hall.
  - rewrite !(VerifySignatures_certified keys _ Hall).
    apply forRange_content; try (intros x; apply checkSignature_preserves).
    apply map_eq_Forall2 in Hs. eapply Forall2_impl; [exact Hs|].
    intros s1 s2 [= Hby Hrole Hsig]. apply checkSignature_content; try assumption.
    intros author role. now apply cleartext_content.
  - destruct (first_uncertified keys Hall) as (p & k & q & -> & Hp & Hk).
    destruct (indexKey_fails k Hk) as (r & Hr & Hrun).
    now rewrite !(VerifySignatures_uncertified p k q _ r Hp Hr Hrun).
Qed.

Lemma GenerateSignature_ok_inv now author role k privKey i i' :
  GenerateSignature now author role k privKey i = (Ok tt, i') ->
  In role roleVocabulary /\ IncludesRole k role = true
  /\ In author (Authors (inv_Bindle i)) /\ length privKey = 64
  /\ exists pubKey,
       base64.DecodeString (key_Key k) = Ok pubKey
       /\ i' = {| inv_Bindle := inv_Bindle i;
                  inv_Parcel := inv_Parcel i;
                  inv_Signature :=
                    Some (elems (inv_Signature i)
                          ++ [{| sig_By := author;
                                 sig_Signature :=
                                   base64.EncodeToString
                                     (sign privKey
                                        (list_ascii_of_string
                                           (generateCleartext i author role)));
                                 sig_Key := base64.EncodeToString pubKey;
                                 sig_Role := role;
                                 sig_At := now |}]) |}.
Proof.
  destruct (GenerateSignature_cases now author role k privKey i)
    as [H|[[H Hk]|[(H & Hk & Ha)|(H & Hk & Ha)]]].
  - now rewrite GenerateSignature_invalid_role.
  - now rewrite GenerateSignature_role_mismatch.
  - now rewrite GenerateSignature_no_author.
  - rewrite (GenerateSignature_signs _ _ _ _ _ _ H Hk Ha).
    unfold ed25519.Sign, ed25519.PrivateKeySize.
    destruct (Nat.eqb_spec (length privKey) 64) as [Hlen|_]; [|discriminate].
    destruct (base64.DecodeString (key_Key k)) as [pubKey|e|msg];
      try discriminate.
    intros [= <-]. repeat split; try assumption.
    exists pubKey. split; reflexivity.
Qed.






Lemma labels_inj keys k k' :
  List.NoDup (map key_Label keys) -> In k keys -> In k' keys ->
  key_Label k = key_Label k' -> k = k'.
Proof.
  induction keys as [|x keys IH]; [intros _ []|].
  cbn [map]. intros Hnd Hk Hk' Hl. apply NoDup_cons_iff in Hnd as [Hx Hnd].
  destruct Hk as [<-|Hk], Hk' as [<-|Hk']; auto.
  - destruct Hx. rewrite Hl. now apply in_map.
  - destruct Hx. rewrite <- Hl. now apply in_map.
Qed.

Lemma lastWithLabel_NoDup keys (label : string) k :
  List.NoDup (map key_Label keys) -> In k keys -> key_Label k = label ->
  lastWithLabel keys label = Some k.
Proof.
  intros Hnd Hin Hl.
  destruct (lastWithLabel keys label) as [k'|] eqn:Hlast.
  - apply lastWithLabel_Some in Hlast as [Hin' Hl'].
    f_equal. apply (labels_inj keys); congruence.
  - destruct (proj1 (lastWithLabel_None keys label) Hlast k Hin Hl).
Qed.

Lemma lastWithLabel_cons keys k (label : string) :
  lastWithLabel (k :: keys) label
  = match lastWithLabel keys label with
    | Some k' => Some k'
    | None => if String.eqb (key_Label k) label then Some k else None
    end.
Proof. unfold lastWithLabel. cbn [rev]. rewrite find_app. reflexivity. Qed.

Lemma lastWithLabel_snoc keys k (label : string) :
  lastWithLabel (keys ++ [k]) label
  = if String.eqb (key_Label k) label then Some k else lastWithLabel keys label.
Proof. unfold lastWithLabel. rewrite rev_unit. reflexivity. Qed.

(** X3. Countersigning. When an invoice verifies against a list of keys
    and a party signs it with the key that the list holds last under the
    name of the party, the signed invoice verifies against the same list:
    the signatures of the other parties stay valid. *)
Theorem X3_countersign_then_verify now author role keys key privKey pubKey i :
  VerifySignatures keys i = (Ok tt, i) ->
  lastWithLabel keys author = Some key ->
  In role roleVocabulary -> IncludesRole key role = true ->
  In author (Authors (inv_Bindle i)) ->
  base64.DecodeString (key_Key key) = Ok pubKey -> KeyPair privKey pubKey ->
  exists i',
    GenerateSignature now author role key privKey i = (Ok tt, i')
    /\ VerifySignatures keys i' = (Ok tt, i').
Proof.
  intros Hbefore Hlast H Hk Ha Hpub (Hpriv & Hlen & Hpair).
  rewrite (GenerateSignature_signs _ _ _ _ _ _ H Hk Ha).
  unfold ed25519.Sign, ed25519.PrivateKeySize. rewrite Hpriv, Hpub. cbn [Nat.eqb].
  eexists. split; [reflexivity|].
  apply VerifySignatures_ok_iff in Hbefore as [Hcert Hold].
  apply VerifySignatures_ok_iff. split; [exact Hcert|].
  cbn [inv_Signature elems]. intros s Hs. apply in_app_or in Hs as [Hs|[<-|[]]].
  - destruct (Hold s Hs) as (k & Hl & Hv). exists k. split; [exact Hl|].
    unfold recordVerifies in *. cbn in *.
    now rewrite (cleartext_frame i _ (sig_By s) (sig_Role s)) by reflexivity.
  - exists key. split; [exact Hlast|].
    unfold recordVerifies. cbn [sig_By sig_Role sig_Signature].
    rewrite Hk, Hpub, DecodeString_EncodeToString, Hlen. cbn.
    rewrite (cleartext_frame i _ author role) by reflexivity.
    apply Hpair.
Qed.

(** X4. What verification reads. The result of [VerifySignatures] depends
    on the invoice only through the name and the version of the bindle, the
    digests of the parcels, and the author, role and signature of every
    record: the list of authors, the key and the time stored in a record,
    and any other field of a parcel have no influence. *)
Theorem X4_verify_reads_signed_content keys i1 i2 :
  Name (inv_Bindle i1) = Name (inv_Bindle i2) ->
  Version (inv_Bindle i1) = Version (inv_Bindle i2) ->
  parcelDigests i1 = parcelDigests i2 ->
  map (fun s => (sig_By s, sig_Role s, sig_Signature s)) (elems (inv_Signature i1))
  = map (fun s => (sig_By s, sig_Role s, sig_Signature s)) (elems (inv_Signature i2)) ->
  fst (VerifySignatures keys i1) = fst (VerifySignatures keys i2).
Proof. exact (VerifySignatures_content keys i1 i2). Qed.

(** X5. The time of signing is not signed. Two calls of
    [GenerateSignature] that differ only in the reading of the clock end
    the same way, store the same author, role, signature and key, and give
    invoices on which [VerifySignatures] returns the same result. *)
Theorem X5_signing_time_not_signed now1 now2 author role k privKey i keys :
  fst (GenerateSignature now1 author role k privKey i)
  = fst (GenerateSignature now2 author role k privKey i)
  /\ map (fun s => (sig_By s, sig_Role s, sig_Signature s, sig_Key s))
       (elems (inv_Signature (snd (GenerateSignature now1 author role k privKey i))))
     = map (fun s => (sig_By s, sig_Role s, sig_Signature s, sig_Key s))
         (elems (inv_Signature (snd (GenerateSignature now2 author role k privKey i))))
  /\ fst (VerifySignatures keys (snd (GenerateSignature now1 author role k privKey i)))
     = fst (VerifySignatures keys (snd (GenerateSignature now2 author role k privKey i))).
Proof.
  destruct (GenerateSignature_cases now1 author role k privKey i)
    as [H|[[H Hk]|[(H & Hk & Ha)|(H & Hk & Ha)]]].
  - now rewrite !GenerateSignature_invalid_role.
  - now rewrite !GenerateSignature_role_mismatch.
  - now rewrite !GenerateSignature_no_author.
  - rewrite !(GenerateSignature_signs _ _ _ _ _ _ H Hk Ha).
    destruct (ed25519.Sign _ _) as [sig|e|msg]; [|now repeat split..].
    destruct (base64.DecodeString (key_Key k)) as [pubKey|e|msg];
      [|now repeat split..].
    cbn [fst snd inv_Signature elems]. split; [reflexivity|].
    split; [now rewrite !map_app|].
    apply VerifySignatures_content; try reflexivity.
    cbn [inv_Signature elems]. now rewrite !map_app.
Qed.

(** X6. What a signature record holds. After a call that returns [nil] the
    appended record decodes back: its [Key] decodes to the bytes that the
    [Key] of the signing key decodes to, and its [Signature] decodes to the
    signature of the canonical text of the invoice for the author and the
    role. *)
Theorem X6_record_decodes_back now author role k privKey i i' :
  GenerateSignature now author role k privKey i = (Ok tt, i') ->
  exists record,
    elems (inv_Signature i') = elems (inv_Signature i) ++ [record]
    /\ base64.DecodeString (sig_Key record) = base64.DecodeString (key_Key k)
    /\ base64.DecodeString (sig_Signature record)
       = Ok (sign privKey
               (list_ascii_of_string (generateCleartext i author role))).
Proof.
  intros Hrun.
  apply GenerateSignature_ok_inv in Hrun as (_ & _ & _ & _ & pubKey & Hpub & ->).
  eexists. split; [reflexivity|]. cbn [sig_Key sig_Signature].
  now rewrite !DecodeString_EncodeToString.
Qed.

(** X7. Nothing to verify, nothing to verify with. An invoice without
    signatures verifies against every list of self-certifying keys, the
    empty list included; an invoice with a signature does not verify
    against the empty list: the call returns [ErrMissingSignatureKey]. *)
Theorem X7_unsigned_invoice_and_no_keys :
  (forall keys i,
      elems (inv_Signature i) = [] -> forallb selfCertifies keys = true ->
      VerifySignatures keys i = (Ok tt, i))
  /\ (forall i s others,
        elems (inv_Signature i) = s :: others ->
        VerifySignatures [] i = (Err ErrMissingSignatureKey, i)).
Proof.
  split.
  - intros keys i Hnone Hall.
    now rewrite (VerifySignatures_certified keys i Hall), Hnone.
  - intros i s others Hsome.
    rewrite (VerifySignatures_certified [] i eq_refl), Hsome.
    cbn [forRange]. unfold bind. now rewrite checkSignature_missing.
Qed.



(** X10. The order of the keys. For self-certifying keys with pairwise
    different labels the result of [VerifySignatures] does not depend on
    the order in which the keys are supplied. *)
Theorem X10_key_order_irrelevant keys keys' i :
  forallb selfCertifies keys = true -> List.NoDup (map key_Label keys) ->
  Permutation keys keys' ->
  VerifySignatures keys i = VerifySignatures keys' i.
Proof.
  intros Hall Hnd Hperm.
  assert (Hall' : forallb selfCertifies keys' = true).
  { rewrite forallb_forall in *. intros k Hk. apply Hall.
    now apply (Permutation_in k (Permutation_sym Hperm)). }
  assert (Hnd' : List.NoDup (map key_Label keys')).
  { apply (Permutation_NoDup (Permutation_map key_Label Hperm) Hnd). }
  rewrite (VerifySignatures_certified keys i Hall),
    (VerifySignatures_certified keys' i Hall').
  f_equal. f_equal. apply map_eq. intros label. rewrite !indexKeys_lookup.
  destruct (lastWithLabel keys label) as [k|] eqn:Hlast.
  - apply lastWithLabel_Some in Hlast as [Hin Hl].
    now rewrite (lastWithLabel_NoDup keys' label k Hnd'
                   (Permutation_in k Hperm Hin) Hl).
  - destruct (lastWithLabel keys' label) as [k'|] eqn:Hlast'; [|reflexivity].
    apply lastWithLabel_Some in Hlast' as [Hin Hl].
    destruct (proj1 (lastWithLabel_None keys label) Hlast k'
                (Permutation_in k' (Permutation_sym Hperm) Hin) Hl).
Qed.

(** X11. More keys. When an invoice verifies against a list of keys, it
    still verifies after a self-certifying key is put in front of the
    list, whatever its label; and after a self-certifying key is put at the
    end of the list, provided no record of the invoice has the label of
    this key as its author. *)
Theorem X11_more_keys_keep_success keys k i :
  VerifySignatures keys i = (Ok tt, i) -> selfCertifies k = true ->
  VerifySignatures (k :: keys) i = (Ok tt, i)
  /\ ((forall s, In s (elems (inv_Signature i)) -> sig_By s <> key_Label k) ->
      VerifySignatures (keys ++ [k]) i = (Ok tt, i)).
Proof.
  intros Hrun Hk. apply VerifySignatures_ok_iff in Hrun as [Hall Hsigs]. split.
  - apply VerifySignatures_ok_iff. split; [cbn [forallb]; now rewrite Hk, Hall|].
    intros s Hs. destruct (Hsigs s Hs) as (k' & Hlast & Hv). exists k'.
    split; [|exact Hv]. now rewrite lastWithLabel_cons, Hlast.
  - intros Hfresh. apply VerifySignatures_ok_iff. split.
    + rewrite forallb_app. cbn [forallb]. now rewrite Hk, Hall.
    + intros s Hs. destruct (Hsigs s Hs) as (k' & Hlast & Hv). exists k'.
      split; [|exact Hv]. rewrite lastWithLabel_snoc.
      destruct (String.eqb_spec (key_Label k) (sig_By s)) as [Heq|_];
        [|exact Hlast].
      destruct (Hfresh s Hs). now symmetry.
Qed.

(** X12. Signing does not repair. When [VerifySignatures] does not return
    [nil] on an invoice, it ends in the same way on the invoice that a
    further successful call of [GenerateSignature] produces: the records
    already stored are checked first, against the same canonical text. *)
Theorem X12_signing_does_not_repair now author role k privKey keys i i'
    (r : result unit) :
  VerifySignatures keys i = (r, i) -> r <> Ok tt ->
  GenerateSignature now author role k privKey i = (Ok tt, i') ->
  VerifySignatures keys i' = (r, i').
Proof.
  intros Hrun Hr Hsign.
  apply GenerateSignature_ok_inv in Hsign as (_ & _ & _ & _ & pubKey & _ & ->).
  destruct (forallb selfCertifies keys) eqn:Hall.
  - rewrite (VerifySignatures_certified keys i Hall) in Hrun.
    rewrite (VerifySignatures_certified keys _ Hall).
    cbn [inv_Signature elems]. rewrite forRange_app. unfold bind.
    match goal with
    | |- context [forRange ?l ?b ?j] =>
        assert (Hold : forRange l b j = (r, j))
    end.
    { rewrite (run_fst _ _ (forRange_preserves _ _
                 (fun x => checkSignature_preserves _ x))).
      f_equal.
      assert (Hfst : fst (forRange (elems (inv_Signature i))
                            (checkSignature (indexKeys keys ∅)) i) = r)
        by now rewrite Hrun.
      rewrite <- Hfst.
      apply forRange_content; try (intros x; apply checkSignature_preserves).
      apply Forall2_same_length_lookup_2; [reflexivity|].
      intros n x y Hx Hy. rewrite Hx in Hy. injection Hy as <-.
      apply checkSignature_content; reflexivity. }
    rewrite Hold. destruct r as [[]|e|msg]; [now destruct Hr|reflexivity..].
  - destruct (first_uncertified keys Hall) as (p & k' & q & -> & Hp & Hk').
    destruct (indexKey_fails k' Hk') as (r' & Hr' & Hrun').
    rewrite (VerifySignatures_uncertified p k' q i r' Hp Hr' Hrun') in Hrun.
    rewrite (VerifySignatures_uncertified p k' q _ r' Hp Hr' Hrun').
    now injection Hrun as ->.
Qed.


End MoreFacts.

(** X1. [IsAuthoredBy] returns [true] exactly for the strings in the list
    of authors of the invoice: the comparison is exact, and for an invoice
    without authors the result is [false]. *)
Theorem X1_IsAuthoredBy_membership (i : Invoice) (author : string) :
  IsAuthoredBy i author = true <-> In author (Authors (inv_Bindle i)).
Proof. apply authoredBy_In. Qed.

(** X2. What the canonical text binds. When none of its fields contains a
    newline, the canonical text determines the author, the name and the
    version of the bindle, the role and the digests of the parcels: two
    texts are equal only if all of these are. *)
Theorem X2_cleartext_binds_fields (i1 i2 : Invoice) (a1 a2 r1 r2 : string) :
  forallb newlineFree (cleartextFields i1 a1 r1) = true ->
  forallb newlineFree (cleartextFields i2 a2 r2) = true ->
  (generateCleartext i1 a1 r1 = generateCleartext i2 a2 r2
   <-> a1 = a2 /\ Name (inv_Bindle i1) = Name (inv_Bindle i2)
       /\ Version (inv_Bindle i1) = Version (inv_Bindle i2)
       /\ r1 = r2 /\ parcelDigests i1 = parcelDigests i2).
Proof.
  intros F1 F2. rewrite !generateCleartext_fields.
  unfold cleartextFields in *. cbn [List.app] in *. split.
  - intros H. apply concat_newline_inj in H; [|assumption..].
    injection H as -> -> -> -> ->. repeat split.
  - intros (-> & -> & -> & -> & ->). reflexivity.
Qed.

(** ** The further properties on the test data *)

Lemma Model_KeyPair_second : KeyPair (E := Model.scheme) Fixture.privB Fixture.pubB.
Proof.
  split; [reflexivity|]. split; [reflexivity|].
  intros msg. cbn [verify sign Model.scheme].
  change (skipn 32 Fixture.privB) with Fixture.pubB.
  now apply bool_decide_eq_true.
Qed.

Lemma X1_IsAuthoredBy_membership_witness :
  IsAuthoredBy Fixture.invoice Fixture.matt = true.
Proof.
  apply (proj2 (X1_IsAuthoredBy_membership Fixture.invoice Fixture.matt)).
  now left.
Defined.

Lemma X2_cleartext_binds_fields_witness :
  generateCleartext Fixture.invoice Fixture.matt "creator"
  <> generateCleartext Fixture.invoice Fixture.matt "approver".
Proof.
  intros H.
  apply (proj1 (X2_cleartext_binds_fields Fixture.invoice Fixture.invoice
                  Fixture.matt Fixture.matt "creator" "approver"
                  eq_refl eq_refl)) in H.
  destruct H as (_ & _ & _ & Hrole & _). discriminate.
Defined.

Lemma X3_countersign_then_verify_witness :
  exists i',
    GenerateSignature (E := Model.scheme) 1600000100 Party.someone "approver"
      Party.keyC Fixture.privB Party.sharedInvoice = (Ok tt, i')
    /\ VerifySignatures (E := Model.scheme) [Fixture.keyA; Party.keyC] i'
       = (Ok tt, i').
Proof.
  apply (X3_countersign_then_verify (E := Model.scheme) 1600000100 Party.someone
           "approver" [Fixture.keyA; Party.keyC] Party.keyC Fixture.privB
           Fixture.pubB Party.sharedInvoice).
  - vm_compute; reflexivity.
  - vm_compute; reflexivity.
  - cbn; tauto.
  - reflexivity.
  - right; now left.
  - vm_compute; reflexivity.
  - exact Model_KeyPair_second.
Defined.

Lemma X4_verify_reads_signed_content_witness :
  fst (VerifySignatures (E := Model.scheme) [Fixture.keyA] Party.strippedInvoice)
  = fst (VerifySignatures (E := Model.scheme) [Fixture.keyA] Fixture.signedInvoice).
Proof.
  apply (X4_verify_reads_signed_content (E := Model.scheme) [Fixture.keyA]
           Party.strippedInvoice Fixture.signedInvoice);
    reflexivity.
Defined.

Lemma X6_record_decodes_back_witness :
  exists record,
    elems (inv_Signature Fixture.signedInvoice)
    = elems (inv_Signature Fixture.invoice) ++ [record]
    /\ base64.DecodeString (sig_Key record)
       = base64.DecodeString (key_Key Fixture.keyA)
    /\ base64.DecodeString (sig_Signature record)
       = Ok (sign (Ed25519 := Model.scheme) Fixture.privA
               (list_ascii_of_string
                  (generateCleartext Fixture.invoice Fixture.matt "creator"))).
Proof.
  apply (X6_record_decodes_back (E := Model.scheme) Fixture.clock Fixture.matt
           "creator" Fixture.keyA Fixture.privA Fixture.invoice
           Fixture.signedInvoice).
  vm_compute; reflexivity.
Defined.

Lemma X7_unsigned_invoice_and_no_keys_witness :
  VerifySignatures (E := Model.scheme) [Fixture.keyA] Fixture.invoice
  = (Ok tt, Fixture.invoice)
  /\ VerifySignatures (E := Model.scheme) [] Fixture.signedInvoice
     = (Err ErrMissingSignatureKey, Fixture.signedInvoice).
Proof.
  destruct (X7_unsigned_invoice_and_no_keys (E := Model.scheme)) as [Hnone Hkeys].
  split.
  - apply Hnone; vm_compute; reflexivity.
  - apply (Hkeys Fixture.signedInvoice Fixture.creatorSignature []). reflexivity.
Defined.


Lemma X10_key_order_irrelevant_witness :
  VerifySignatures (E := Model.scheme) [Fixture.keyA; Party.keyC] Party.sharedInvoice
  = VerifySignatures (E := Model.scheme) [Party.keyC; Fixture.keyA]
      Party.sharedInvoice.
Proof.
  apply (X10_key_order_irrelevant (E := Model.scheme)).
  - vm_compute; reflexivity.
  - repeat constructor; cbn; intuition discriminate.
  - apply perm_swap.
Defined.

Lemma X11_more_keys_keep_success_witness :
  VerifySignatures (E := Model.scheme) [Party.keyC; Fixture.keyA]
    Fixture.signedInvoice
  = (Ok tt, Fixture.signedInvoice)
  /\ VerifySignatures (E := Model.scheme) [Fixture.keyA; Party.keyC]
       Fixture.signedInvoice
     = (Ok tt, Fixture.signedInvoice).
Proof.
  destruct (X11_more_keys_keep_success (E := Model.scheme) [Fixture.keyA]
              Party.keyC Fixture.signedInvoice) as [Hfront Hback];
    [vm_compute; reflexivity|vm_compute; reflexivity|].
  split; [exact Hfront|]. apply Hback.
  intros s [<-|[]]. discriminate.
Defined.

Lemma X12_signing_does_not_repair_witness :
  VerifySignatures (E := Model.scheme) [Fixture.keyA] Fixture.countersignedInvoice
  = (Err ErrMissingSignatureKey, Fixture.countersignedInvoice).
Proof.
  apply (X12_signing_does_not_repair (E := Model.scheme) Fixture.clock
           Fixture.matt "creator" Fixture.keyA Fixture.privA [Fixture.keyA]
           Fixture.approvedInvoice Fixture.countersignedInvoice).
  - vm_compute; reflexivity.
  - discriminate.
  - vm_compute; reflexivity.
Defined.

